(** * scrapnov: the chapter merge / resume / retry core of [scrape.py]

    A shallow embedding of the methods of [LightNovelScraper] that decide
    how chapters are collected, fetched, merged, sorted and checkpointed:
    [is_chapter_exists], [merge_chapters], [sort_chapters],
    [get_chapter_content_with_retry], [save_partial_novel_data] and
    [get_all_chapters_for_novel].

    Conventions.
    - A Python [str] is a [string]; each character stands for one code
      point in the range U+0000..U+00FF.
    - A chapter is the dict built by [extract_chapter_info], which always
      sets the same ten keys; a field holding [None] is Python's [None], so
      [d.get(k)] and [d.get(k, default)] both read the field.
    - The network, the clock and the disk are part of an explicit [world]
      threaded through a small state monad; logging is not modelled. *)

From Stdlib Require Import ZArith Ascii Floats.SpecFloat.
From stdpp Require Import gmap strings list pretty sorting.

(** ** Data model *)

Module Chapter.

Record chapter := mk_chapter {
  ch_id : option string;
  ch_number : option string;
  ch_title : option string;
  ch_url : option string;
  ch_original_time : option string;
  ch_novel_slug : option string;
  ch_content : option string;
  ch_scraped_at : option string;
  ch_content_scraped_at : option string;
  ch_error : option string
}.

#[export] Instance chapter_eq_dec : EqDecision chapter.
Proof. solve_decision. Defined.

(** Field updates, [chapter['content'] = v] and the like. *)
Definition set_content (v : option string) (c : chapter) : chapter :=
  mk_chapter (ch_id c) (ch_number c) (ch_title c) (ch_url c)
    (ch_original_time c) (ch_novel_slug c) v (ch_scraped_at c)
    (ch_content_scraped_at c) (ch_error c).

Definition set_scraped_at (v : option string) (c : chapter) : chapter :=
  mk_chapter (ch_id c) (ch_number c) (ch_title c) (ch_url c)
    (ch_original_time c) (ch_novel_slug c) (ch_content c) v
    (ch_content_scraped_at c) (ch_error c).

Definition set_content_scraped_at (v : option string) (c : chapter) : chapter :=
  mk_chapter (ch_id c) (ch_number c) (ch_title c) (ch_url c)
    (ch_original_time c) (ch_novel_slug c) (ch_content c) (ch_scraped_at c)
    v (ch_error c).

Definition set_error (v : option string) (c : chapter) : chapter :=
  mk_chapter (ch_id c) (ch_number c) (ch_title c) (ch_url c)
    (ch_original_time c) (ch_novel_slug c) (ch_content c) (ch_scraped_at c)
    (ch_content_scraped_at c) v.

(** The stub [extract_chapter_info] returns: the four content fields are
    [None]. *)
Definition stub (id number title url time slug : option string) : chapter :=
  mk_chapter id number title url time slug None None None None.

End Chapter.
Export Chapter.

(** ** Python values *)

(** Truth value of an optional string: [None] and [''] are false. *)
Definition truthy (v : option string) : bool :=
  match v with
  | None => false
  | Some s => negb (bool_decide (s = ""))
  end.

(** [a == b] on optional strings; [None == None] is true. *)
Definition py_eq (a b : option string) : bool := bool_decide (a = b).

(** ** Merge Engine: membership and merge *)

(** [is_chapter_exists]: the [for] loop returns at the first match. *)
Definition same_chapter (existing_chapter new_chapter : chapter) : bool :=
  py_eq (ch_id existing_chapter) (ch_id new_chapter)
  || (py_eq (ch_number existing_chapter) (ch_number new_chapter)
      && py_eq (ch_title existing_chapter) (ch_title new_chapter)).

Fixpoint is_chapter_exists (existing_chapters : list chapter)
    (new_chapter : chapter) : bool :=
  match existing_chapters with
  | [] => false
  | existing_chapter :: rest =>
      if same_chapter existing_chapter new_chapter then true
      else is_chapter_exists rest new_chapter
  end.

(** [{chap.get('id') for chap in existing_chapters if chap.get('id')}] *)
Definition existing_ids (existing_chapters : list chapter) : gset (option string) :=
  list_to_set (map ch_id (List.filter (fun chap => truthy (ch_id chap)) existing_chapters)).

(** [{chap.get('number') for chap in existing_chapters if chap.get('number')}] *)
Definition existing_numbers (existing_chapters : list chapter) : gset (option string) :=
  list_to_set (map ch_number (List.filter (fun chap => truthy (ch_number chap)) existing_chapters)).

(** The test guarding [continue] in the loop of [merge_chapters]. *)
Definition known (ids numbers : gset (option string)) (new_chapter : chapter) : bool :=
  bool_decide (ch_id new_chapter ∈ ids) || bool_decide (ch_number new_chapter ∈ numbers).

(** [merge_chapters]: the two sets are built once, from [existing_chapters];
    the loop appends to the copy and never updates them. *)
Definition merge_chapters (existing_chapters new_chapters : list chapter) : list chapter :=
  let ids := existing_ids existing_chapters in
  let numbers := existing_numbers existing_chapters in
  fold_left
    (fun merged_chapters new_chapter =>
       if known ids numbers new_chapter then merged_chapters
       else merged_chapters ++ [new_chapter])
    new_chapters existing_chapters.

(** ** The world: network, clock, disk *)

(** A parsed page, as far as the selectors of the crawler can see it:
    the stubs [extract_chapters_from_page] builds from its [.chapter-card]
    elements, whether a "Next Page" link is shown, and the text of its
    [.chapter-text] element once [script] and [style] are removed
    ([None] when [select_one] finds no such element). *)
Record document := mk_document {
  doc_chapter_cards : list chapter;
  doc_has_next : bool;
  doc_chapter_text : option string
}.

(** What [session.get] followed by [raise_for_status] and the parser gives:
    an exception, or a page. *)
Inductive http_result :=
  | HttpError
  | HttpOk (soup : document).

Inductive metadata :=
  | PartialSave (scraped_at : string) (total_chapters : nat) (novel_slug : string)
      (current_progress : string)
  | CompleteSave (scraped_at : string) (total_chapters : nat) (novel_slug : string)
      (novel_title first_scraped last_updated : string).

(** The per-novel file.  The novel record keeps its string fields only. *)
Record novel_dataset := mk_dataset {
  ds_metadata : metadata;
  ds_novel_info : gmap string string;
  ds_chapters : list chapter
}.

Inductive event :=
  | EvGet (url : string)
  | EvSleep (seconds : nat)
  | EvWrite (filename : string) (data : novel_dataset).

(** [w_http n] answers the [n]-th request of the run and [w_clock n] is the
    [n]-th reading of the clock; the trace lists the effects in order. *)
Record world := mk_world {
  w_http : nat -> http_result;
  w_requests : nat;
  w_clock : nat -> string;
  w_ticks : nat;
  w_files : gmap string novel_dataset;
  w_trace : list event
}.

Definition M (A : Type) : Type := world -> A * world.

Definition ret {A} (a : A) : M A := fun w => (a, w).

Definition bind {A B} (m : M A) (k : A -> M B) : M B :=
  fun w => let (a, w') := m w in k a w'.

Notation "x <- m ;; k" := (bind m (fun x => k))
  (at level 100, m at next level, right associativity).

Definition emit (e : event) (w : world) : world :=
  mk_world (w_http w) (w_requests w) (w_clock w) (w_ticks w) (w_files w)
    (w_trace w ++ [e]).

Definition http_get (url : string) : M http_result := fun w =>
  (w_http w (w_requests w),
   emit (EvGet url)
     (mk_world (w_http w) (S (w_requests w)) (w_clock w) (w_ticks w)
        (w_files w) (w_trace w))).

Definition sleep (seconds : nat) : M unit := fun w => (tt, emit (EvSleep seconds) w).

Definition get_current_timestamp : M string := fun w =>
  (w_clock w (w_ticks w),
   mk_world (w_http w) (w_requests w) (w_clock w) (S (w_ticks w)) (w_files w)
     (w_trace w)).

(** [json.dump] into a file opened for writing: the file is replaced. *)
Definition write_json (filename : string) (data : novel_dataset) : M unit := fun w =>
  (tt,
   emit (EvWrite filename data)
     (mk_world (w_http w) (w_requests w) (w_clock w) (w_ticks w)
        (<[filename := data]> (w_files w)) (w_trace w))).

Definition read_json (filename : string) : M (option novel_dataset) := fun w =>
  (w_files w !! filename, w).

(** ** Content Fetcher *)

(** [str.isspace] on U+0000..U+00FF. *)
Definition py_isspace (c : ascii) : bool :=
  let n := nat_of_ascii c in
  ((9 <=? n) && (n <=? 13)) || ((28 <=? n) && (n <=? 32)) || (n =? 133) || (n =? 160).

(** Removal of the characters [isspace] accepts, at the left end, at the
    right end, and at both. *)
Fixpoint lstrip (isspace : ascii -> bool) (s : string) : string :=
  match s with
  | String c s' => if isspace c then lstrip isspace s' else s
  | EmptyString => EmptyString
  end.

Fixpoint rstrip (isspace : ascii -> bool) (s : string) : string :=
  match s with
  | String c s' =>
      match rstrip isspace s' with
      | EmptyString => if isspace c then EmptyString else String c EmptyString
      | r => String c r
      end
  | EmptyString => EmptyString
  end.

Definition strip (isspace : ascii -> bool) (s : string) : string :=
  rstrip isspace (lstrip isspace s).

(** [s.strip()] *)
Definition py_strip (s : string) : string := strip py_isspace s.

(** [content and len(content.strip()) > 10] *)
Definition content_ok (content : string) : bool :=
  truthy (Some content) && (10 <? String.length (py_strip content)).

(** The body of [for attempt in range(max_retries)], over the attempts
    that remain.  The sleep sits in the [except] branch only: the two
    branches that log a warning fall through to the next attempt. *)
Fixpoint retry_attempts (chapter_url : string) (max_retries delay : nat)
    (attempts : list nat) : M (option string) :=
  match attempts with
  | [] => ret None
  | attempt :: rest =>
      r <- http_get chapter_url ;;
      match r with
      | HttpOk soup =>
          match doc_chapter_text soup with
          | Some content =>
              if content_ok content then ret (Some content)
              else retry_attempts chapter_url max_retries delay rest
          | None => retry_attempts chapter_url max_retries delay rest
          end
      | HttpError =>
          if attempt <? max_retries - 1 then
            _ <- sleep (delay * (attempt + 1)) ;;
            retry_attempts chapter_url max_retries delay rest
          else retry_attempts chapter_url max_retries delay rest
      end
  end.

Definition get_chapter_content_with_retry (chapter_url : string)
    (max_retries delay : nat) : M (option string) :=
  retry_attempts chapter_url max_retries delay (seq 0 max_retries).

(** ** Sort pass *)

Inductive exn := TypeError | ValueError | KeyError.

Inductive result (A : Type) :=
  | Ok (a : A)
  | Raise (e : exn).
Arguments Ok {A} a.
Arguments Raise {A} e.

(** *** Python floats

    A Python [float] is an IEEE 754 binary64 number: [spec_float] at
    precision 53 and maximal exponent 1024. *)
Module PyFloat.

Definition prec : Z := 53.
Definition emax : Z := 1024.

Definition inf : spec_float := S754_infinity false.

(** [a < b] on floats; false as soon as one side is nan. *)
Definition lt (a b : spec_float) : bool := SFltb a b.

Definition isnan (a : spec_float) : bool :=
  match a with S754_nan => true | _ => false end.

Definition is_digit (c : ascii) : bool :=
  let n := nat_of_ascii c in (48 <=? n) && (n <=? 57).

Definition digit_value (c : ascii) : Z := Z.of_nat (nat_of_ascii c) - 48.

Definition lower (c : ascii) : ascii :=
  let n := nat_of_ascii c in
  if (65 <=? n) && (n <=? 90) then ascii_of_nat (n + 32) else c.

Fixpoint lower_string (s : string) : string :=
  match s with
  | String c s' => String (lower c) (lower_string s')
  | EmptyString => EmptyString
  end.

(** The white space [float] skips at both ends: the C locale's, and the
    two Latin-1 spaces U+0085 and U+00A0, which it first turns into a
    blank.  U+001C..U+001F are not skipped, unlike in [str.strip]. *)
Definition float_isspace (c : ascii) : bool :=
  let n := nat_of_ascii c in
  ((9 <=? n) && (n <=? 13)) || (n =? 32) || (n =? 133) || (n =? 160).

Definition float_strip (s : string) : string := strip float_isspace s.

(** An underscore is allowed between two digits only; the accepted ones
    are dropped.  [prev] is the character before [s]. *)
Fixpoint drop_underscores (prev : ascii) (s : string) : option string :=
  match s with
  | EmptyString => if bool_decide (prev = "_"%char) then None else Some EmptyString
  | String c s' =>
      if bool_decide (c = "_"%char) then
        if is_digit prev then drop_underscores c s' else None
      else if bool_decide (prev = "_"%char) && negb (is_digit c) then None
      else String c <$> drop_underscores c s'
  end.

Fixpoint all_digits (s : string) : bool :=
  match s with
  | String c s' => is_digit c && all_digits s'
  | EmptyString => true
  end.

(** The longest prefix of digits, and what follows it. *)
Fixpoint span_digits (s : string) : string * string :=
  match s with
  | String c s' =>
      if is_digit c then
        let (ds, rest) := span_digits s' in (String c ds, rest)
      else (EmptyString, s)
  | EmptyString => (EmptyString, EmptyString)
  end.

Fixpoint digits_value (acc : Z) (ds : string) : Z :=
  match ds with
  | String c ds' => digits_value (10 * acc + digit_value c) ds'
  | EmptyString => acc
  end.

(** [(-1)^neg * m * 10^e10], rounded to the nearest binary64, ties to even;
    a number too large rounds to an infinity. *)
Definition of_decimal (neg : bool) (m e10 : Z) : spec_float :=
  match m with
  | Zpos p =>
      if (0 <=? e10)%Z then binary_round prec emax neg (p * Z.to_pos (10 ^ e10)) 0
      else SFdiv prec emax (S754_finite neg p 0)
             (S754_finite false (Z.to_pos (10 ^ (- e10))) 0)
  | _ => S754_zero neg
  end.

(** An optional sign: whether it is [-], and what follows it. *)
Definition split_sign (s : string) : bool * string :=
  match s with
  | String c t =>
      if bool_decide (c = "-"%char) then (true, t)
      else if bool_decide (c = "+"%char) then (false, t)
      else (false, s)
  | EmptyString => (false, s)
  end.

(** The exponent part: empty, or [e], an optional sign and digits. *)
Definition parse_exponent (s : string) : option Z :=
  match s with
  | EmptyString => Some 0%Z
  | String c s' =>
      if bool_decide (lower c = "e"%char) then
        let (eneg, s'') := split_sign s' in
        let (ds, rest) := span_digits s'' in
        if bool_decide (ds = EmptyString) || negb (bool_decide (rest = EmptyString)) then None
        else Some (if eneg then (- digits_value 0 ds)%Z else digits_value 0 ds)
      else None
  end.

(** The digits after the point, if there is a point, and what follows. *)
Definition split_fraction (s : string) : string * string :=
  match s with
  | String c t => if bool_decide (c = "."%char) then span_digits t else (EmptyString, s)
  | EmptyString => (EmptyString, s)
  end.

(** A decimal literal without sign: digits, an optional point and digits,
    at least one digit in all, and an optional exponent. *)
Definition parse_decimal (neg : bool) (s : string) : option spec_float :=
  let (ipart, rest) := span_digits s in
  let (fpart, rest') := split_fraction rest in
  if bool_decide (ipart = EmptyString) && bool_decide (fpart = EmptyString) then None
  else
    e ← parse_exponent rest';
    Some (of_decimal neg (digits_value (digits_value 0 ipart) fpart)
            (e - Z.of_nat (String.length fpart))).

(** [float(s)] on a string: [None] stands for [ValueError]. *)
Definition of_string (s : string) : option spec_float :=
  s1 ← drop_underscores "000"%char s;
  let (neg, body) := split_sign (float_strip s1) in
  let word := lower_string body in
  if bool_decide (word = "inf") || bool_decide (word = "infinity") then
    Some (S754_infinity neg)
  else if bool_decide (word = "nan") then Some S754_nan
  else parse_decimal neg body.

End PyFloat.

(** [float(v)]: [None] is a [TypeError], a malformed string a [ValueError]. *)
Definition py_float (v : option string) : result spec_float :=
  match v with
  | None => Raise TypeError
  | Some s =>
      match PyFloat.of_string s with
      | Some x => Ok x
      | None => Raise ValueError
      end
  end.

(** *** [re.findall(r'\d+\.?\d*', s)]

    A scan from left to right: digits, then at most one point, then
    digits; a match ends at the first character that cannot extend it. *)
Inductive scan_state :=
  | Outside
  | InInteger (token : string)
  | InFraction (token : string).

Definition push (token : string) (c : ascii) : string :=
  token +:+ String c EmptyString.

Fixpoint scan_numbers (st : scan_state) (s : string) : list string :=
  match s with
  | EmptyString =>
      match st with
      | Outside => []
      | InInteger token | InFraction token => [token]
      end
  | String c s' =>
      match st with
      | Outside =>
          if PyFloat.is_digit c then scan_numbers (InInteger (String c EmptyString)) s'
          else scan_numbers Outside s'
      | InInteger token =>
          if PyFloat.is_digit c then scan_numbers (InInteger (push token c)) s'
          else if bool_decide (c = "."%char) then scan_numbers (InFraction (push token c)) s'
          else token :: scan_numbers Outside s'
      | InFraction token =>
          if PyFloat.is_digit c then scan_numbers (InFraction (push token c)) s'
          else token :: scan_numbers Outside s'
      end
  end.

(** The shape of a match: digits, at least one, then possibly a point
    and digits. *)
Definition numeric_token (token : string) : Prop :=
  exists ipart fpart,
    PyFloat.all_digits ipart = true /\ ipart <> EmptyString
    /\ PyFloat.all_digits fpart = true
    /\ (token = ipart \/ token = ipart +:+ "." +:+ fpart).

(** What the scanner holds between two characters: nothing, the digits
    of a match, or a match that has reached its point. *)
Definition scan_state_ok (st : scan_state) : Prop :=
  match st with
  | Outside => True
  | InInteger token => PyFloat.all_digits token = true /\ token <> EmptyString
  | InFraction token =>
      exists ipart fpart,
        PyFloat.all_digits ipart = true /\ ipart <> EmptyString
        /\ PyFloat.all_digits fpart = true
        /\ token = ipart +:+ "." +:+ fpart
  end.

(** The characters of a match: digits and the point. *)
Definition plain (c : ascii) : bool :=
  PyFloat.is_digit c || bool_decide (c = "."%char).

Fixpoint all_plain (s : string) : bool :=
  match s with
  | String c s' => plain c && all_plain s'
  | EmptyString => true
  end.

(** On [None] the call raises [TypeError]. *)
Definition re_findall_numbers (v : option string) : result (list string) :=
  match v with
  | None => Raise TypeError
  | Some s => Ok (scan_numbers Outside s)
  end.

(** [chapter_key]: the second [float] and the [findall] run inside the
    [except] clause, so what they raise is not caught. *)
Definition chapter_key (chap : chapter) : result spec_float :=
  let number := ch_number chap in
  match py_float number with
  | Ok x => Ok x
  | Raise _ =>
      match re_findall_numbers number with
      | Raise e => Raise e
      | Ok [] => Ok PyFloat.inf
      | Ok (first :: _) => py_float (Some first)
      end
  end.

(** [sorted(chapters, key=chapter_key)] computes every key first, in
    order, and stops at the first exception; it then sorts, stably,
    comparing keys with [<] alone.  When no key is nan that order is
    total and the stable arrangement is unique; [stable_sort] builds it
    by inserting from the right, each record before the first one whose
    key is not smaller. *)
Fixpoint keyed (chapters : list chapter) : result (list (spec_float * chapter)) :=
  match chapters with
  | [] => Ok []
  | c :: rest =>
      match chapter_key c with
      | Raise e => Raise e
      | Ok k =>
          match keyed rest with
          | Raise e => Raise e
          | Ok l => Ok ((k, c) :: l)
          end
      end
  end.

Fixpoint insert_keyed (x : spec_float * chapter) (l : list (spec_float * chapter))
    : list (spec_float * chapter) :=
  match l with
  | [] => [x]
  | y :: l' =>
      if PyFloat.lt (fst y) (fst x) then y :: insert_keyed x l'
      else x :: y :: l'
  end.

Definition stable_sort (l : list (spec_float * chapter)) : list (spec_float * chapter) :=
  foldr insert_keyed [] l.

Definition sort_chapters (chapters : list chapter) : result (list chapter) :=
  match keyed chapters with
  | Raise e => Raise e
  | Ok l => Ok (map snd (stable_sort l))
  end.

(** ** Checkpoint Writer *)

Definition novel_filename (novel_slug : string) : string :=
  "data/novels/" +:+ novel_slug +:+ ".json".

(** [save_partial_novel_data] writes the merge of the chapters on disk and
    the chapters processed so far, as [merge_chapters] returns it.  (A
    failure of the write itself is caught and logged by the method; here
    writes succeed.) *)
Definition save_partial_novel_data (novel_slug : string)
    (existing_data : option novel_dataset) (new_chapters : list chapter)
    (processed_count current_index : nat) : M unit :=
  let existing_chapters :=
    match existing_data with Some d => ds_chapters d | None => [] end in
  let current_merged := merge_chapters existing_chapters new_chapters in
  let novel_info :=
    match existing_data with
    | Some d => ds_novel_info d
    | None => {[ "slug" := novel_slug ]}
    end in
  now <- get_current_timestamp ;;
  write_json (novel_filename novel_slug)
    (mk_dataset
       (PartialSave now (length current_merged) novel_slug
          (pretty current_index +:+ " chapters processed"))
       novel_info current_merged).

(** [save_complete_novel_to_json], with the default [filename].  A missing
    ['slug'] raises before the [try]; a missing ['title'] raises inside
    it and is caught, so that nothing is written. *)
Definition save_complete_novel_to_json (novel_data : gmap string string)
    (chapters_with_content : list chapter) : M (result unit) :=
  match novel_data !! "slug" with
  | None => ret (Raise KeyError)
  | Some slug =>
      scraped_at <- get_current_timestamp ;;
      match novel_data !! "title" with
      | None => ret (Ok tt)
      | Some title =>
          fallback <- get_current_timestamp ;;
          last_updated <- get_current_timestamp ;;
          _ <- write_json (novel_filename slug)
                 (mk_dataset
                    (CompleteSave scraped_at (length chapters_with_content) slug title
                       (default fallback (novel_data !! "first_scraped")) last_updated)
                    novel_data chapters_with_content) ;;
          ret (Ok tt)
      end
  end.

(** ** Chapter Collector *)

Definition chapters_url (base_url novel_slug : string) (page : nat) : string :=
  let url := base_url +:+ "/novel/" +:+ novel_slug +:+ "/chapters/" in
  if 1 <? page then url +:+ "?page=" +:+ pretty page else url.

(** The inner [for chapter in page_chapters] loop: a stub is queued when
    [is_chapter_exists] does not find it among the existing chapters. *)
Definition queue_new (existing_chapters all_chapter_urls page_chapters : list chapter)
    : list chapter :=
  fold_left
    (fun queued chapter =>
       if is_chapter_exists existing_chapters chapter then queued
       else queued ++ [chapter])
    page_chapters all_chapter_urls.

(** The [while True] loop over the listing pages.  [fuel] bounds the
    number of pages visited; [None] means the bound was reached while the
    site still offered a next page. *)
Fixpoint collect_chapter_urls (fuel : nat) (base_url novel_slug : string)
    (existing_chapters : list chapter) (page : nat)
    (all_chapter_urls : list chapter) : M (option (list chapter)) :=
  match fuel with
  | 0 => ret None
  | S fuel' =>
      r <- http_get (chapters_url base_url novel_slug page) ;;
      match r with
      | HttpError => ret (Some all_chapter_urls)
      | HttpOk soup =>
          match doc_chapter_cards soup with
          | [] => ret (Some all_chapter_urls)
          | page_chapters =>
              let all_chapter_urls :=
                queue_new existing_chapters all_chapter_urls page_chapters in
              if doc_has_next soup then
                _ <- sleep 1 ;;
                collect_chapter_urls fuel' base_url novel_slug existing_chapters
                  (page + 1) all_chapter_urls
              else ret (Some all_chapter_urls)
          end
      end
  end.

(** ** Processing loop and final merge *)

(** What the loop does to one queued stub before it is appended to
    [all_new_chapters]. *)
Definition fetch_chapter (queued : chapter) : M chapter :=
  now <- get_current_timestamp ;;
  let chap := set_scraped_at (Some now) queued in
  if truthy (ch_url chap) then
    content <- get_chapter_content_with_retry (default "" (ch_url chap)) 3 2 ;;
    let chap := set_content content chap in
    now' <- get_current_timestamp ;;
    let chap := set_content_scraped_at (Some now') chap in
    if truthy content then ret chap
    else ret (set_error (Some "Failed to fetch content") (set_content None chap))
  else ret (set_error (Some "No chapter URL available") (set_content None chap)).

(** [for i, chapter in enumerate(all_chapter_urls, 1)], over the stubs
    that remain; [total] is [len(all_chapter_urls)].  Nothing in the body
    raises here, so the [except] clause of the loop is not taken. *)
Fixpoint process_chapters (novel_slug : string) (existing_data : option novel_dataset)
    (total : nat) (todo : list chapter) (i processed_count : nat)
    (all_new_chapters : list chapter) : M (list chapter) :=
  match todo with
  | [] => ret all_new_chapters
  | queued :: rest =>
      chap <- fetch_chapter queued ;;
      let all_new_chapters := all_new_chapters ++ [chap] in
      let processed_count := processed_count + 1 in
      _ <- (if (processed_count mod 10 =? 0) || (processed_count =? total) then
              save_partial_novel_data novel_slug existing_data all_new_chapters
                processed_count i
            else ret tt) ;;
      _ <- (if i <? total then sleep 1 else ret tt) ;;
      process_chapters novel_slug existing_data total rest (i + 1) processed_count
        all_new_chapters
  end.

(** [get_all_chapters_for_novel]: collect, process with checkpoints, then
    merge and sort.  The exception of [sort_chapters], if any, leaves the
    method. *)
Definition get_all_chapters_for_novel (fuel : nat) (base_url novel_slug : string)
    (existing_data : option novel_dataset) : M (option (result (list chapter))) :=
  let existing_chapters :=
    match existing_data with Some d => ds_chapters d | None => [] end in
  queued <- collect_chapter_urls fuel base_url novel_slug existing_chapters 1 [] ;;
  match queued with
  | None => ret None
  | Some all_chapter_urls =>
      all_new_chapters <-
        process_chapters novel_slug existing_data (length all_chapter_urls)
          all_chapter_urls 1 0 [] ;;
      let final_chapters := merge_chapters existing_chapters all_new_chapters in
      ret (Some (sort_chapters final_chapters))
  end.

Definition load_existing_novel (novel_slug : string) : M (option novel_dataset) :=
  read_json (novel_filename novel_slug).

(** One round of the second pass of [scrape_all_novels_complete]: load,
    collect and fetch, final save. *)
Definition second_pass_step (fuel : nat) (base_url : string)
    (novel_data : gmap string string) : M (option (result (list chapter))) :=
  match novel_data !! "slug", novel_data !! "title" with
  | Some novel_slug, Some _ =>
      existing_data <- load_existing_novel novel_slug ;;
      r <- get_all_chapters_for_novel fuel base_url novel_slug existing_data ;;
      match r with
      | None => ret None
      | Some (Raise e) => ret (Some (Raise e))
      | Some (Ok all_chapters) =>
          saved <- save_complete_novel_to_json novel_data all_chapters ;;
          match saved with
          | Raise e => ret (Some (Raise e))
          | Ok _ => ret (Some (Ok all_chapters))
          end
      end
  | _, _ => ret (Some (Raise KeyError))
  end.

(** ** Vocabulary of the specification *)

(** "[v] is among the non-null [field]s of [l]", and the same with
    non-empty strings only. *)
Definition among_non_null (field : chapter -> option string) (l : list chapter)
    (v : option string) : Prop :=
  v <> None /\ Exists (fun e => field e = v) l.

Definition among_non_empty (field : chapter -> option string) (l : list chapter)
    (v : option string) : Prop :=
  truthy v = true /\ Exists (fun e => field e = v) l.

#[export] Instance among_non_null_dec field l v : Decision (among_non_null field l v).
Proof. unfold among_non_null. apply _. Defined.

#[export] Instance among_non_empty_dec field l v : Decision (among_non_empty field l v).
Proof. unfold among_non_empty. apply _. Defined.

(** The identity key of a chapter record: its id when it has one, else
    its number and title. *)
Definition identity_key (c : chapter) : string + option string * option string :=
  match ch_id c with
  | Some i => inl i
  | None => inr (ch_number c, ch_title c)
  end.

(** No two records share an identity key. *)
Definition unique_identities (l : list chapter) : Prop := NoDup (map identity_key l).

(** A record [merge_chapters] can recognise: it has a non-empty id or a
    non-empty number. *)
Definition has_key (c : chapter) : bool := truthy (ch_id c) || truthy (ch_number c).

(** A record whose identity key is one [merge_chapters] indexes: a
    non-empty id, or no id and a non-empty number. *)
Definition indexed_key (c : chapter) : Prop :=
  match ch_id c with
  | Some i => i <> ""
  | None => truthy (ch_number c) = true
  end.

(** The membership rule read off the identity key: the same non-null id,
    or, for a stub without id, the same number and title. *)
Definition known_by_identity (existing : list chapter) (c : chapter) : Prop :=
  (ch_id c <> None /\ Exists (fun e => ch_id e = ch_id c) existing)
  \/ (ch_id c = None
      /\ Exists (fun e => ch_number e = ch_number c /\ ch_title e = ch_title c) existing).

(** The same rule with the composite key tried for every stub. *)
Definition known_by_id_or_composite (existing : list chapter) (c : chapter) : Prop :=
  (ch_id c <> None /\ Exists (fun e => ch_id e = ch_id c) existing)
  \/ Exists (fun e => ch_number e = ch_number c /\ ch_title e = ch_title c) existing.

(** An attempt of the Content Fetcher fails when the request raises, when
    the page has no [.chapter-text] element, or when its text is
    rejected by [content_ok]. *)
Definition attempt_fails (r : http_result) : bool :=
  match r with
  | HttpError => true
  | HttpOk soup =>
      match doc_chapter_text soup with
      | None => true
      | Some content => negb (content_ok content)
      end
  end.

(** A listing page after which the collector stops: the request raises,
    the page has no chapter card, or it shows no next page. *)
Definition last_page (r : http_result) : bool :=
  match r with
  | HttpError => true
  | HttpOk soup =>
      match doc_chapter_cards soup with
      | [] => true
      | _ => negb (doc_has_next soup)
      end
  end.

(** A chapter sequence is sorted by the numeric chapter-order key when
    every key can be computed and no key is smaller than an earlier one. *)
Definition nondecreasing (keys : list spec_float) : Prop :=
  StronglySorted (fun a b => PyFloat.lt b a = false) keys.

Definition sorted_by_number (chapters : list chapter) : Prop :=
  match keyed chapters with
  | Ok l => nondecreasing (map fst l)
  | Raise _ => False
  end.

#[export] Instance sorted_by_number_dec chapters : Decision (sorted_by_number chapters).
Proof.
  unfold sorted_by_number, nondecreasing. destruct (keyed chapters); apply _.
Defined.

(** The key of a record, nan standing for a key that cannot be computed. *)
Definition key_of (c : chapter) : spec_float :=
  match chapter_key c with
  | Ok x => x
  | Raise _ => S754_nan
  end.

(** Two keys tie when neither is smaller than the other. *)
Definition ties (a b : spec_float) : bool :=
  negb (PyFloat.lt a b) && negb (PyFloat.lt b a).

(** ** Reading traces *)

Definition is_get (e : event) : bool :=
  match e with EvGet _ => true | _ => false end.

Definition is_write (e : event) : bool :=
  match e with EvWrite _ _ => true | _ => false end.

Definition written_chapters (e : event) : option (list chapter) :=
  match e with
  | EvWrite _ data => Some (ds_chapters data)
  | _ => None
  end.

(** ** Sample inputs *)

Definition sample_url : string := "https://lightnovelpub.org/novel/n/chapter/x".

(** A stub with the given id, number and title and a chapter url. *)
Definition sample (id number title : option string) : chapter :=
  stub id number title (Some sample_url) None (Some "n").

(** The same record once its content was fetched. *)
Definition fetched (id number title : option string) (content : string) : chapter :=
  set_content (Some content) (sample id number title).

(** A record left by a run in which all attempts failed. *)
Definition failed (id number title : option string) : chapter :=
  set_error (Some "Failed to fetch content")
    (set_content_scraped_at (Some "2023-12-31T00:00:00")
       (set_scraped_at (Some "2023-12-31T00:00:00") (sample id number title))).

(** A run that starts with an empty disk and an empty trace. *)
Definition fresh_world (http : nat -> http_result) : world :=
  mk_world http 0 (fun _ => "2024-01-01T00:00:00") 0 ∅ [].

(** A chapter page with the given text, one without [.chapter-text]
    element, and a listing page. *)
Definition chapter_page (text : string) : http_result :=
  HttpOk (mk_document [] false (Some text)).

Definition bare_page : http_result := HttpOk (mk_document [] false None).

Definition listing_page (stubs : list chapter) (has_next : bool) : http_result :=
  HttpOk (mk_document stubs has_next None).

(** A site on which a chapter request first raises, then returns a page
    without content element, then pages with a text of nine characters. *)
Definition failing_site (n : nat) : http_result :=
  match n with
  | 0 => HttpError
  | 1 => bare_page
  | _ => chapter_page "too short"
  end.

(** A novel whose only listing page shows chapter 2 above chapter 1, as
    listings with the latest chapter first do; every chapter page has a
    text. *)
Definition latest_first_site (n : nat) : http_result :=
  match n with
  | 0 => listing_page [sample (Some "c2") (Some "2") (Some "Two");
                       sample (Some "c1") (Some "1") (Some "One")] false
  | _ => chapter_page "Once upon a time, in a land far away."
  end.

Definition sample_novel : gmap string string :=
  {[ "slug" := "n"; "title" := "A Novel" ]}.

(** A novel of 23 chapters on a single listing page. *)
Definition numbered_stub (n : nat) : chapter :=
  sample (Some ("c" +:+ pretty n)) (Some (pretty n)) None.

Definition long_novel_site (n : nat) : http_result :=
  match n with
  | 0 => listing_page (map numbered_stub (seq 1 23)) false
  | _ => chapter_page "Once upon a time, in a land far away."
  end.

(** ** Further vocabulary *)

(** The fields of a record that processing never touches. *)
Definition listing_fields (c : chapter)
    : option string * option string * option string * option string
      * option string * option string :=
  (ch_id c, ch_number c, ch_title c, ch_url c, ch_original_time c, ch_novel_slug c).

(** The stubs a listing request yields; none when the request raises. *)
Definition cards_of (r : http_result) : list chapter :=
  match r with
  | HttpError => []
  | HttpOk soup => doc_chapter_cards soup
  end.

(** A site on which a chapter request raises, then returns a page
    without content element, then a page with a text. *)
Definition failing_site_then_ok (n : nat) : http_result :=
  match n with
  | 0 => HttpError
  | 1 => bare_page
  | _ => chapter_page "Once upon a time, in a land far away."
  end.

(** Whether a checkpoint follows the [k]-th chapter of [total]. *)
Definition checkpoint_due (total k : nat) : bool :=
  (k mod 10 =? 0) || (k =? total).

(** A stub for which no link was found on the card. *)
Definition linkless (id number title : option string) : chapter :=
  stub id number title None None (Some "n").

(** The stubs of a listing that [is_chapter_exists] does not find. *)
Definition new_stubs (existing_chapters stubs : list chapter) : list chapter :=
  List.filter (fun c => negb (is_chapter_exists existing_chapters c)) stubs.

(** A novel listed on two pages, the second being the last. *)
Definition two_page_site (n : nat) : http_result :=
  match n with
  | 0 => listing_page [sample (Some "c1") (Some "1") None;
                       sample (Some "c2") (Some "2") None] true
  | _ => listing_page [sample (Some "c3") (Some "3") None] false
  end.

(** A string without any digit. *)
Fixpoint no_digit (s : string) : bool :=
  match s with
  | String c s' => negb (PyFloat.is_digit c) && no_digit s'
  | EmptyString => true
  end.

(** A float that is not a finite number: an infinity or nan. *)
Definition not_finite (x : spec_float) : bool :=
  match x with
  | S754_infinity _ | S754_nan => true
  | _ => false
  end.

(** A write of the final save. *)
Definition is_complete_write (e : event) : bool :=
  match e with
  | EvWrite _ data =>
      match ds_metadata data with
      | CompleteSave _ _ _ _ _ _ => true
      | PartialSave _ _ _ _ => false
      end
  | _ => false
  end.

(** A novel whose listing shows a prologue without chapter number. *)
Definition prologue_site (n : nat) : http_result :=
  match n with
  | 0 => listing_page [sample (Some "c0") None (Some "Prologue");
                       sample (Some "c1") (Some "1") (Some "One")] false
  | _ => chapter_page "Once upon a time, in a land far away."
  end.

(** The file of novel [n] after a first run that saved chapter 1. *)
Definition stored_novel : novel_dataset :=
  mk_dataset (CompleteSave "2023-12-31T00:00:00" 1 "n" "A Novel"
                "2023-12-31T00:00:00" "2023-12-31T00:00:00")
    sample_novel
    [fetched (Some "c1") (Some "1") (Some "One") "Once upon a time, in a land far away."].

Definition resumed_world (http : nat -> http_result) : world :=
  mk_world http 0 (fun _ => "2024-01-01T00:00:00") 0
    {[ novel_filename "n" := stored_novel ]} [].

(** ** Novels index and slugs *)

(** A record of the index [novels.json] is a dict read through its fields
    that hold a string or [None]: a key is mapped to [Some s] or, for
    [None], to [None].  [d.get(key)] reads a missing key as [None];
    [d[key]] raises [KeyError] on a missing key only. *)
Definition py_get (d : gmap string (option string)) (key : string) : option string :=
  match d !! key with
  | Some v => v
  | None => None
  end.

(** The loop of [update_novel_in_list]: the first record whose slug is
    [novel_slug] is replaced; [None] when the loop finds no such record. *)
Fixpoint replace_first (novel_slug : option string) (updated_novel : gmap string (option string))
    (novels_list : list (gmap string (option string))) : option (list (gmap string (option string))) :=
  match novels_list with
  | [] => None
  | n :: rest =>
      if bool_decide (py_get n "slug" = novel_slug) then Some (updated_novel :: rest)
      else cons n <$> replace_first novel_slug updated_novel rest
  end.

(** [update_novel_in_list]: the list object after the call, and how the
    call ends.  The list is changed before the log line is built, which
    reads [updated_novel['title']] and raises [KeyError] without it. *)
Definition update_novel_in_list (novels_list : list (gmap string (option string))) (updated_novel : gmap string (option string))
    : list (gmap string (option string)) * result unit :=
  let novel_slug := py_get updated_novel "slug" in
  let novels_list' :=
    match replace_first novel_slug updated_novel novels_list with
    | Some l => l
    | None => novels_list ++ [updated_novel]
    end in
  (novels_list',
   match updated_novel !! "title" with
   | Some _ => Ok tt
   | None => Raise KeyError
   end).

(** The first record of the index with a given slug. *)
Definition find_by_slug (novel_slug : option string) (novels_list : list (gmap string (option string)))
    : option (gmap string (option string)) :=
  List.find (fun n => bool_decide (py_get n "slug" = novel_slug)) novels_list.

(** [str.lower] on U+0000..U+00FF, character by character. *)
Definition py_lower (c : ascii) : ascii :=
  let n := nat_of_ascii c in
  if ((65 <=? n) && (n <=? 90)) || ((192 <=? n) && (n <=? 214))
     || ((216 <=? n) && (n <=? 222))
  then ascii_of_nat (n + 32) else c.

Fixpoint py_lower_string (s : string) : string :=
  match s with
  | String c s' => String (py_lower c) (py_lower_string s')
  | EmptyString => EmptyString
  end.

(** [\w] on U+0000..U+00FF: letters, digits and other numerals, and the
    underscore. *)
Definition re_word (c : ascii) : bool :=
  let n := nat_of_ascii c in
  ((48 <=? n) && (n <=? 57)) || ((65 <=? n) && (n <=? 90)) || (n =? 95)
  || ((97 <=? n) && (n <=? 122)) || (n =? 170) || ((178 <=? n) && (n <=? 179))
  || (n =? 181) || ((185 <=? n) && (n <=? 186)) || ((188 <=? n) && (n <=? 190))
  || ((192 <=? n) && (n <=? 214)) || ((216 <=? n) && (n <=? 246))
  || ((248 <=? n) && (n <=? 255)).

Definition is_hyphen (c : ascii) : bool := bool_decide (c = "-"%char).

(** [re.sub(r'[^\w\s-]', '', text)]; [\s] is [py_isspace]. *)
Fixpoint remove_punctuation (s : string) : string :=
  match s with
  | String c s' =>
      if re_word c || py_isspace c || is_hyphen c then String c (remove_punctuation s')
      else remove_punctuation s'
  | EmptyString => EmptyString
  end.

(** [re.sub(r'[-\s]+', '-', text)]: each maximal run of hyphens and white
    space becomes one hyphen.  [in_run] tells that the character before
    [s] was part of a run. *)
Fixpoint collapse_runs (in_run : bool) (s : string) : string :=
  match s with
  | String c s' =>
      if is_hyphen c || py_isspace c then
        if in_run then collapse_runs true s' else String "-"%char (collapse_runs true s')
      else String c (collapse_runs false s')
  | EmptyString => EmptyString
  end.

Definition slugify (text : string) : string :=
  collapse_runs false (remove_punctuation (py_strip (py_lower_string text))).

(** The shape of a slug: word characters in lower case and hyphens, no
    two hyphens in a row.  [after_hyphen] tells that the character before
    [s] was a hyphen. *)
Fixpoint slug_shape (after_hyphen : bool) (s : string) : bool :=
  match s with
  | String c s' =>
      if is_hyphen c then negb after_hyphen && slug_shape true s'
      else re_word c && bool_decide (py_lower c = c) && slug_shape false s'
  | EmptyString => true
  end.

Definition is_slash (c : ascii) : bool := bool_decide (c = "/"%char).

(** [s.split('/')] *)
Fixpoint split_slash (s : string) : list string :=
  match s with
  | String c s' =>
      if is_slash c then EmptyString :: split_slash s'
      else match split_slash s' with
           | piece :: pieces => String c piece :: pieces
           | [] => [String c EmptyString]
           end
  | EmptyString => [EmptyString]
  end.

(** [novel_path.strip('/').split('/')[-1]], the slug [extract_novel_info]
    reads from the link of a card. *)
Definition slug_of_path (novel_path : string) : string :=
  List.last (split_slash (strip is_slash novel_path))
    EmptyString.

Fixpoint has_slash (s : string) : bool :=
  match s with
  | String c s' => is_slash c || has_slash s'
  | EmptyString => false
  end.

(** The slugs of an index, in order. *)
Definition slugs (novels_list : list (gmap string (option string))) : list (option string) :=
  map (fun n => py_get n "slug") novels_list.

(** Sample index records. *)
Definition sample_entry (slug title : string) : gmap string (option string) :=
  {[ "slug" := Some slug; "title" := Some title ]}.

(** Every character of [s] satisfies [P]. *)
Fixpoint string_forall (P : ascii -> bool) (s : string) : bool :=
  match s with
  | String c s' => P c && string_forall P s'
  | EmptyString => true
  end.

(** A character [str.lower] leaves alone, and one [remove_punctuation]
    keeps. *)
Definition lowered (c : ascii) : bool := bool_decide (py_lower c = c).

Definition kept (c : ascii) : bool := re_word c || py_isspace c || is_hyphen c.

(** ** First pass of [scrape_all_novels_complete] *)

(** [f"{v}"] *)
Definition py_format (v : option string) : string :=
  match v with
  | Some s => s
  | None => "None"
  end.

Section FirstPass.

(** What the selectors and regular expressions of [extract_novel_detail]
    read off a page: the fields title, author, cover_url, status and
    summary; [None] when one of them raises. *)
Variable selected : document -> option (gmap string (option string)).

(** [save_novels_to_json]: the index file lies outside [w_files], so the
    write is left open. *)
Variable save_novels_to_json : list (gmap string (option string)) -> M unit.

Variable base_url : string.

(** [extract_novel_detail]: the dict literal takes [id], [slug] and [url]
    from [novel_slug]. *)
Definition extract_novel_detail (soup : document) (novel_slug : option string)
    : option (gmap string (option string)) :=
  match selected soup with
  | Some fields =>
      Some (<["id" := novel_slug]>
              (<["slug" := novel_slug]>
                 (<["url" := Some (base_url +:+ "/novel/" +:+ py_format novel_slug +:+ "/")]>
                    fields)))
  | None => None
  end.

(** [get_novel_detail]: any exception of the request gives [None]. *)
Definition get_novel_detail (novel_slug : option string)
    : M (option (gmap string (option string))) :=
  r <- http_get (base_url +:+ "/novel/" +:+ py_format novel_slug +:+ "/") ;;
  match r with
  | HttpError => ret None
  | HttpOk soup =>
      match extract_novel_detail soup novel_slug with
      | Some detail_info =>
          last_updated <- get_current_timestamp ;;
          scraped_at <- get_current_timestamp ;;
          ret (Some (<["scraped_at" := Some scraped_at]>
                       (<["last_updated" := Some last_updated]> detail_info)))
      | None => ret None
      end
  end.

(** [{**novel, **detail} if detail else novel] *)
Definition novel_data_of (novel : gmap string (option string))
    (detail : option (gmap string (option string))) : gmap string (option string) :=
  match detail with
  | Some d => if bool_decide (d = ∅) then novel else d ∪ novel
  | None => novel
  end.

(** [any(n.get('slug') == novel_slug for n in updated_novels_list)] *)
Definition in_list (novel_slug : option string)
    (updated_novels_list : list (gmap string (option string))) : bool :=
  existsb (fun n => bool_decide (py_get n "slug" = novel_slug)) updated_novels_list.

(** The loop [for i, novel in enumerate(novels, 1)] of the first pass,
    from novel [i] of [total] on.  It gives [updated_novels_list] and
    [novel_details_list]; [novel['slug']] and [novel['title']] raise
    [KeyError] on a record without the key. *)
Fixpoint first_pass (total i : nat) (novels : list (gmap string (option string)))
    (updated_novels_list novel_details_list : list (gmap string (option string)))
    : M (result (list (gmap string (option string)) * list (gmap string (option string)))) :=
  match novels with
  | [] => ret (Ok (updated_novels_list, novel_details_list))
  | novel :: rest =>
      match novel !! "slug", novel !! "title" with
      | Some novel_slug, Some _ =>
          if in_list novel_slug updated_novels_list then
            first_pass total (S i) rest updated_novels_list novel_details_list
          else
            detail <- get_novel_detail novel_slug ;;
            let novel_data := novel_data_of novel detail in
            match update_novel_in_list updated_novels_list novel_data with
            | (updated_novels_list', Ok _) =>
                _ <- save_novels_to_json updated_novels_list' ;;
                _ <- (if i <? total then sleep 2 else ret tt) ;;
                first_pass total (S i) rest updated_novels_list'
                  (novel_details_list ++ [novel_data])
            | (_, Raise e) => ret (Raise e)
            end
      | _, _ => ret (Raise KeyError)
      end
  end.

End FirstPass.

(** A listed novel has the keys the first pass reads. *)
Definition listed (novel : gmap string (option string)) : bool :=
  bool_decide (is_Some (novel !! "slug")) && bool_decide (is_Some (novel !! "title")).

(** A save that leaves the modelled world alone. *)
Definition save_elsewhere (novels : list (gmap string (option string))) : M unit :=
  ret tt.

(** A site whose detail pages all load. *)
Definition detail_site (n : nat) : http_result := bare_page.

(** A detail page on which the selectors find a title only. *)
Definition title_only (title : string) (soup : document)
    : option (gmap string (option string)) :=
  Some {[ "title" := Some title ]}.

(** * Properties *)

(** ** Merge Engine *)

Section MergeFacts.

Implicit Types (E N : list chapter) (c e : chapter) (v : option string).

Lemma truthy_Some v : truthy v = true -> exists s, v = Some s /\ s <> "".
Proof.
  destruct v as [s|]; simpl; [|discriminate].
  intros H. exists s. split; [reflexivity|].
  intros ->. rewrite bool_decide_eq_true_2 in H by reflexivity. discriminate.
Qed.

Lemma truthy_nonempty (s : string) : s <> "" -> truthy (Some s) = true.
Proof. intros H. simpl. rewrite bool_decide_eq_false_2 by assumption. reflexivity. Qed.

Lemma elem_of_existing_ids E v :
  v ∈ existing_ids E <-> truthy v = true /\ exists e, e ∈ E /\ ch_id e = v.
Proof.
  unfold existing_ids. rewrite elem_of_list_to_set, list_elem_of_In, in_map_iff.
  split.
  - intros (e & <- & [He Ht]%filter_In). split; [assumption|].
    exists e. split; [by apply list_elem_of_In|reflexivity].
  - intros (Ht & e & He & <-). exists e. split; [reflexivity|].
    apply filter_In. split; [by apply list_elem_of_In|assumption].
Qed.

Lemma elem_of_existing_numbers E v :
  v ∈ existing_numbers E <-> truthy v = true /\ exists e, e ∈ E /\ ch_number e = v.
Proof.
  unfold existing_numbers. rewrite elem_of_list_to_set, list_elem_of_In, in_map_iff.
  split.
  - intros (e & <- & [He Ht]%filter_In). split; [assumption|].
    exists e. split; [by apply list_elem_of_In|reflexivity].
  - intros (Ht & e & He & <-). exists e. split; [reflexivity|].
    apply filter_In. split; [by apply list_elem_of_In|assumption].
Qed.

(** The loop of [merge_chapters] is a filter of the incoming list, put
    after the existing one. *)
Lemma merge_loop_filter (known_b : chapter -> bool) N acc :
  fold_left (fun merged c => if known_b c then merged else merged ++ [c]) N acc
  = acc ++ List.filter (fun c => negb (known_b c)) N.
Proof.
  revert acc. induction N as [|c N IH]; intros acc; simpl.
  - by rewrite app_nil_r.
  - rewrite IH. destruct (known_b c); simpl; [reflexivity|].
    by rewrite <- app_assoc.
Qed.

Lemma merge_chapters_filter E N :
  merge_chapters E N
  = E ++ List.filter (fun c => negb (known (existing_ids E) (existing_numbers E) c)) N.
Proof. unfold merge_chapters. apply merge_loop_filter. Qed.

Lemma known_true E c :
  known (existing_ids E) (existing_numbers E) c = true <->
  (truthy (ch_id c) = true /\ exists e, e ∈ E /\ ch_id e = ch_id c) \/
  (truthy (ch_number c) = true /\ exists e, e ∈ E /\ ch_number e = ch_number c).
Proof.
  unfold known. rewrite orb_true_iff, !bool_decide_eq_true.
  by rewrite elem_of_existing_ids, elem_of_existing_numbers.
Qed.

Lemma known_mono E E' c :
  known (existing_ids E) (existing_numbers E) c = true ->
  known (existing_ids (E ++ E')) (existing_numbers (E ++ E')) c = true.
Proof.
  rewrite !known_true.
  intros [(Ht & e & He & Heq)|(Ht & e & He & Heq)]; [left|right];
    (split; [assumption|]); exists e; (split; [|assumption]);
    apply elem_of_app; by left.
Qed.

End MergeFacts.

Section MergeClaims.

Implicit Types (E N : list chapter) (c e : chapter) (v : option string).

Lemma list_filter_decide {A} (f : A -> bool) (P : A -> Prop) `{!forall x, Decision (P x)}
    (l : list A) :
  (forall x, f x = true <-> P x) -> List.filter f l = filter P l.
Proof.
  intros Hf. induction l as [|x l IH]; [reflexivity|].
  simpl. rewrite filter_cons, IH.
  destruct (f x) eqn:Hx; destruct (decide (P x)) as [HP|HP]; try reflexivity.
  - destruct HP. by apply Hf.
  - apply Hf in HP. congruence.
Qed.

Lemma among_non_empty_ids E v : among_non_empty ch_id E v <-> v ∈ existing_ids E.
Proof.
  unfold among_non_empty. rewrite elem_of_existing_ids, Exists_exists. reflexivity.
Qed.

Lemma among_non_empty_numbers E v :
  among_non_empty ch_number E v <-> v ∈ existing_numbers E.
Proof.
  unfold among_non_empty. rewrite elem_of_existing_numbers, Exists_exists. reflexivity.
Qed.

(** C9, as amended.  [merge_chapters E N] is [E], unchanged and in order,
    followed by exactly those records of [N] whose id is not among the
    non-null, non-empty ids of [E] and whose number is not among the
    non-null, non-empty numbers of [E]; so an incoming record whose
    non-empty id is that of an existing record is dropped, whatever
    content it carries. *)
Theorem merge_chapters_first_write_wins E N :
  merge_chapters E N
  = E ++ filter (fun c => ~ among_non_empty ch_id E (ch_id c)
                          /\ ~ among_non_empty ch_number E (ch_number c)) N
  /\ forall e c, e ∈ E -> ch_id c = ch_id e -> truthy (ch_id e) = true ->
       merge_chapters E [c] = E.
Proof.
  assert (Hkept : forall c,
    negb (known (existing_ids E) (existing_numbers E) c) = true <->
    ~ among_non_empty ch_id E (ch_id c) /\ ~ among_non_empty ch_number E (ch_number c)).
  { intros c. rewrite among_non_empty_ids, among_non_empty_numbers.
    unfold known. rewrite negb_true_iff, orb_false_iff, !bool_decide_eq_false.
    reflexivity. }
  split.
  - rewrite merge_chapters_filter. f_equal. by apply list_filter_decide.
  - intros e c He Hid Ht. rewrite merge_chapters_filter. simpl.
    assert (known (existing_ids E) (existing_numbers E) c = true) as ->.
    { apply known_true. left. rewrite Hid. split; [assumption|]. by exists e. }
    simpl. by rewrite app_nil_r.
Qed.

Lemma merge_chapters_first_write_wins_witness :
  merge_chapters [sample (Some "c1") (Some "1") None]
    [fetched (Some "c1") (Some "1") None "X"]
  = [sample (Some "c1") (Some "1") None].
Proof.
  apply (proj2 (merge_chapters_first_write_wins
                  [sample (Some "c1") (Some "1") None]
                  [fetched (Some "c1") (Some "1") None "X"])
           (sample (Some "c1") (Some "1") None)).
  - apply list_elem_of_here.
  - reflexivity.
  - reflexivity.
Defined.

(** C9 as stated fails: an empty string is not null, yet it is left out
    of the two index sets, so a record whose number is [''] is appended
    although an existing record has the same number. *)
Lemma merge_chapters_non_null_counterexample :
  ~ (forall E N,
       merge_chapters E N
       = E ++ filter (fun c => ~ among_non_null ch_id E (ch_id c)
                               /\ ~ among_non_null ch_number E (ch_number c)) N).
Proof.
  intros H.
  specialize (H [sample (Some "a") (Some "") None] [sample (Some "b") (Some "") None]).
  vm_compute in H. discriminate H.
Qed.

(** The two de-duplication examples of the specification. *)
Example merge_dedup_by_id :
  merge_chapters [sample (Some "c1") (Some "1") None]
    [fetched (Some "c1") (Some "1") None "X"]
  = [sample (Some "c1") (Some "1") None].
Proof. reflexivity. Qed.

Example merge_dedup_by_number :
  merge_chapters [sample None (Some "5") (Some "Foo")] [sample None (Some "5") (Some "Bar")]
  = [sample None (Some "5") (Some "Foo")].
Proof. reflexivity. Qed.

Lemma list_filter_filter {A} (f g : A -> bool) (l : list A) :
  List.filter g (List.filter f l) = List.filter (fun x => f x && g x) l.
Proof.
  induction l as [|x l IH]; [reflexivity|].
  simpl. destruct (f x); simpl; [destruct (g x)|]; by rewrite IH.
Qed.

Lemma known_has_key E c :
  known (existing_ids E) (existing_numbers E) c = true -> has_key c = true.
Proof.
  rewrite known_true. unfold has_key.
  intros [[-> _]|[-> _]]; [reflexivity|apply orb_true_r].
Qed.

(** Re-merging: what the second merge appends are the records appended
    by the first one that have neither a non-empty id nor a non-empty
    number. *)
Lemma merge_chapters_twice E N :
  merge_chapters (merge_chapters E N) N
  = merge_chapters E N
    ++ List.filter (fun c => negb (has_key c))
         (List.filter (fun c => negb (known (existing_ids E) (existing_numbers E) c)) N).
Proof.
  rewrite (merge_chapters_filter (merge_chapters E N) N). f_equal.
  rewrite list_filter_filter. apply filter_ext_in. intros c Hc.
  rewrite merge_chapters_filter.
  destruct (known (existing_ids E) (existing_numbers E) c) eqn:Hk.
  - by rewrite (known_mono _ _ _ Hk).
  - destruct (has_key c) eqn:Hkey; simpl.
    + apply negb_false_iff, known_true.
      assert (Hin : c ∈ E ++ List.filter
                (fun c => negb (known (existing_ids E) (existing_numbers E) c)) N).
      { apply elem_of_app. right. apply list_elem_of_In, filter_In.
        split; [assumption|]. by rewrite Hk. }
      apply orb_true_iff in Hkey as [Ht|Ht]; [left|right];
        (split; [assumption|]); by exists c.
    + apply negb_true_iff, not_true_is_false. intros Hk'%known_has_key. congruence.
Qed.

(** C1, as amended.  When every incoming record has a non-empty id or a
    non-empty number, merging the same batch a second time changes
    nothing. *)
Theorem merge_chapters_idempotent E N :
  Forall (fun c => has_key c = true) N ->
  merge_chapters (merge_chapters E N) N = merge_chapters E N.
Proof.
  intros HN. rewrite merge_chapters_twice.
  rewrite list_filter_filter.
  assert (List.filter
            (fun x => negb (known (existing_ids E) (existing_numbers E) x)
                      && negb (has_key x)) N = []) as ->; [|by rewrite app_nil_r].
  induction HN as [|c N Hc _ IH]; [reflexivity|].
  simpl. by rewrite Hc, andb_false_r.
Qed.

Lemma merge_chapters_idempotent_witness :
  merge_chapters
    (merge_chapters [sample (Some "c1") (Some "1") None]
       [sample (Some "c1") (Some "1") None; sample None (Some "2") None])
    [sample (Some "c1") (Some "1") None; sample None (Some "2") None]
  = merge_chapters [sample (Some "c1") (Some "1") None]
      [sample (Some "c1") (Some "1") None; sample None (Some "2") None].
Proof.
  apply (merge_chapters_idempotent [sample (Some "c1") (Some "1") None]
           [sample (Some "c1") (Some "1") None; sample None (Some "2") None]).
  repeat constructor.
Defined.

(** C1 as stated fails: a record whose id and number are both null is
    appended again by the second merge. *)
Lemma merge_chapters_idempotent_counterexample :
  merge_chapters (merge_chapters [] [sample None None (Some "Prologue")])
    [sample None None (Some "Prologue")]
  <> merge_chapters [] [sample None None (Some "Prologue")].
Proof. vm_compute. discriminate. Qed.

Lemma map_list_filter_sublist {A B} (f : A -> B) (g : A -> bool) (l : list A) :
  sublist (map f (List.filter g l)) (map f l).
Proof.
  induction l as [|x l IH]; simpl; [constructor|].
  destruct (g x); simpl; by constructor.
Qed.

(** C6, as amended.  When the existing list has unique identity keys, the
    incoming list has unique identity keys too, and every incoming record
    has a non-empty id or else no id and a non-empty number, the merged
    list has unique identity keys. *)
Theorem merge_chapters_unique_identities E N :
  unique_identities E ->
  unique_identities N ->
  Forall indexed_key N ->
  unique_identities (merge_chapters E N).
Proof.
  unfold unique_identities. intros HE HN Hidx.
  rewrite merge_chapters_filter, map_app. apply NoDup_app. split; [assumption|]. split.
  - intros k [e [-> He]]%list_elem_of_fmap [c [Hk Hc]]%list_elem_of_fmap.
    apply list_elem_of_In, filter_In in Hc as [Hc Hkept].
    apply negb_true_iff in Hkept.
    assert (Hknown : known (existing_ids E) (existing_numbers E) c = true);
      [|congruence].
    rewrite Forall_forall in Hidx. specialize (Hidx c).
    rewrite <- list_elem_of_In in Hc. specialize (Hidx Hc).
    apply known_true. unfold identity_key, indexed_key in *.
    destruct (ch_id c) as [i|] eqn:Hic; destruct (ch_id e) as [j|] eqn:Hie;
      try discriminate Hk.
    + left. split; [by apply truthy_nonempty|]. exists e. split; [assumption|].
      congruence.
    + right. split; [assumption|]. exists e. split; [assumption|]. congruence.
  - exact (sublist_NoDup _ _ HN (map_list_filter_sublist _ _ _)).
Qed.

Lemma merge_chapters_unique_identities_witness :
  unique_identities
    (merge_chapters [sample (Some "c1") (Some "1") None; sample None (Some "2") (Some "B")]
       [sample (Some "c1") (Some "1") None; sample (Some "c3") (Some "3") None;
        sample None (Some "4") (Some "D")]).
Proof.
  apply merge_chapters_unique_identities.
  - unfold unique_identities. compute_done.
  - unfold unique_identities. compute_done.
  - repeat constructor; simpl; discriminate.
Defined.

(** C6 as stated fails: the incoming list is not de-duplicated against
    itself, so two incoming records with the same id are both appended. *)
Lemma merge_chapters_unique_identities_counterexample :
  unique_identities []
  /\ ~ unique_identities
         (merge_chapters [] [sample (Some "c1") (Some "1") None;
                             sample (Some "c1") (Some "1") None]).
Proof.
  split; [constructor|].
  unfold unique_identities. compute_done.
Qed.

(** The other two conditions of the amended C6 cannot be dropped
    either: an empty id, and an id-less record without number, are not
    indexed. *)
Example merge_chapters_empty_id_duplicate :
  let E := [sample (Some "") (Some "1") None] in
  let N := [sample (Some "") (Some "2") None] in
  unique_identities E /\ unique_identities N /\ ~ unique_identities (merge_chapters E N).
Proof.
  unfold unique_identities. split; [|split]; compute_done.
Qed.

Example merge_chapters_no_number_duplicate :
  let E := [sample None None (Some "Prologue")] in
  let N := [sample None None (Some "Prologue")] in
  unique_identities E /\ unique_identities N /\ ~ unique_identities (merge_chapters E N).
Proof.
  unfold unique_identities. split; [|split]; compute_done.
Qed.

End MergeClaims.

(** ** Chapter Collector: the membership test *)

Section Membership.

Implicit Types (E : list chapter) (c e : chapter).

Lemma same_chapter_true e c :
  same_chapter e c = true <->
  ch_id e = ch_id c \/ (ch_number e = ch_number c /\ ch_title e = ch_title c).
Proof.
  unfold same_chapter, py_eq.
  rewrite orb_true_iff, andb_true_iff, !bool_decide_eq_true. reflexivity.
Qed.

(** What the loop of [is_chapter_exists] computes, null ids included. *)
Lemma is_chapter_exists_true E c :
  is_chapter_exists E c = true <->
  Exists (fun e => ch_id e = ch_id c
                   \/ (ch_number e = ch_number c /\ ch_title e = ch_title c)) E.
Proof.
  induction E as [|e E IH]; simpl.
  - split; [discriminate|]. by intros ?%Exists_nil.
  - rewrite Exists_cons, <- IH, <- same_chapter_true.
    destruct (same_chapter e c); intuition congruence.
Qed.

(** C2, as amended.  A stub is reported as known when some existing record
    has its non-null id, or when some existing record has its number and
    its title, whether the stub has an id or not; a stub whose id is not
    null is reported as known in these two cases only.  (Nothing is said
    here of what a null id is compared equal to.) *)
Theorem is_chapter_exists_rule E c :
  (known_by_id_or_composite E c -> is_chapter_exists E c = true)
  /\ (ch_id c <> None -> is_chapter_exists E c = true -> known_by_id_or_composite E c).
Proof.
  rewrite is_chapter_exists_true. unfold known_by_id_or_composite. split.
  - intros [[_ H]|H]; eapply Exists_impl; eauto; simpl; intuition.
  - intros Hid H. rewrite Exists_exists in H. destruct H as (e & He & [Heq|Heq]).
    + left. split; [assumption|]. apply Exists_exists. eauto.
    + right. apply Exists_exists. eauto.
Qed.

Lemma is_chapter_exists_rule_witness :
  is_chapter_exists [sample (Some "c1") (Some "1") (Some "One")]
    (sample (Some "c1") (Some "1") (Some "One")) = true
  /\ known_by_id_or_composite [sample (Some "c1") (Some "1") (Some "One")]
       (sample (Some "c1") (Some "1") (Some "One")).
Proof.
  pose proof (is_chapter_exists_rule [sample (Some "c1") (Some "1") (Some "One")]
                (sample (Some "c1") (Some "1") (Some "One"))) as [Hto Hfrom].
  split.
  - apply Hto. left. split; [discriminate|]. apply Exists_cons_hd. reflexivity.
  - apply Hfrom; [discriminate|reflexivity].
Defined.

(** C2 as stated fails: the number and title are compared for every stub,
    so a stub with an id of its own is reported as known when an existing
    record with another id has its number and title. *)
Lemma is_chapter_exists_identity_counterexample :
  ~ (forall E c, is_chapter_exists E c = true <-> known_by_identity E c).
Proof.
  intros H.
  destruct (H [sample (Some "a") (Some "1") (Some "One")]
              (sample (Some "b") (Some "1") (Some "One"))) as [Hto _].
  specialize (Hto eq_refl).
  destruct Hto as [[_ Hex]|[Hnone _]]; [|discriminate Hnone].
  apply Exists_cons in Hex as [Heq|Hex]; [discriminate Heq|].
  by apply Exists_nil in Hex.
Qed.

(** Two null ids compare equal: once an existing record has no id, every
    stub without id is reported as known. *)
Example is_chapter_exists_null_ids :
  is_chapter_exists [sample None (Some "1") (Some "One")]
    (sample None (Some "2") (Some "Two")) = true.
Proof. reflexivity. Qed.

Lemma queue_new_filter E acc page :
  queue_new E acc page
  = acc ++ List.filter (fun c => negb (is_chapter_exists E c)) page.
Proof. unfold queue_new. apply merge_loop_filter. Qed.

(** Whatever the collector queues is new with respect to [E], or was in
    the queue it started from. *)
Lemma collect_chapter_urls_new fuel base_url novel_slug E :
  forall page acc w q w',
    collect_chapter_urls fuel base_url novel_slug E page acc w = (Some q, w') ->
    forall x, x ∈ q -> x ∈ acc \/ is_chapter_exists E x = false.
Proof.
  induction fuel as [|fuel IH]; intros page acc w q w' Hrun x Hx; simpl in Hrun.
  - discriminate Hrun.
  - unfold bind, http_get, ret in Hrun.
    destruct (w_http w (w_requests w)) as [|soup]; [left; congruence|].
    destruct (doc_chapter_cards soup) as [|c0 cards] eqn:Hcards; [left; congruence|].
    assert (Hq : forall y, y ∈ queue_new E acc (c0 :: cards) ->
                   y ∈ acc \/ is_chapter_exists E y = false).
    { intros y. rewrite queue_new_filter, elem_of_app.
      intros [Hy|Hy]; [by left|right].
      apply list_elem_of_In, filter_In in Hy as [_ Hy]. by apply negb_true_iff. }
    destruct (doc_has_next soup).
    + unfold sleep in Hrun. simpl in Hrun.
      destruct (IH _ _ _ _ _ Hrun x Hx) as [Hin|Hnew]; [by apply Hq|by right].
    + apply Hq. injection Hrun as Hq' _. subst q. exact Hx.
Qed.

(** The collector returns as soon as its bound reaches a page at which
    it stops. *)
Lemma collect_chapter_urls_returns fuel base_url novel_slug E :
  forall page acc w,
    (exists k, k < fuel /\ last_page (w_http w (w_requests w + k)) = true) ->
    exists q w', collect_chapter_urls fuel base_url novel_slug E page acc w = (Some q, w').
Proof.
  induction fuel as [|fuel IH]; intros page acc w (k & Hk & Hlast); [lia|].
  simpl. unfold bind, http_get, ret.
  destruct (w_http w (w_requests w)) as [|soup] eqn:Hget; [eauto|].
  destruct (doc_chapter_cards soup) as [|c0 cards] eqn:Hcards; [eauto|].
  destruct (doc_has_next soup) eqn:Hnext; [|eauto].
  unfold sleep. apply IH. simpl.
  destruct k as [|k].
  - rewrite Nat.add_0_r, Hget in Hlast. simpl in Hlast.
    rewrite Hcards, Hnext in Hlast. discriminate.
  - exists k. split; [lia|]. by rewrite <- Nat.add_succ_r.
Qed.

(** C10.  When the existing set holds a record with the id of a stub, be
    it a record whose content is null and whose error is set, the stub is
    reported as known and the collector does not queue it. *)
Theorem known_chapter_never_queued E e c :
  e ∈ E ->
  ch_id e = ch_id c ->
  is_chapter_exists E c = true
  /\ forall fuel base_url novel_slug w q w',
       collect_chapter_urls fuel base_url novel_slug E 1 [] w = (Some q, w') ->
       c ∉ q.
Proof.
  intros He Hid.
  assert (Hknown : is_chapter_exists E c = true).
  { apply is_chapter_exists_true, Exists_exists. exists e. by split; [|left]. }
  split; [assumption|].
  intros fuel base_url novel_slug w q w' Hrun Hc.
  destruct (collect_chapter_urls_new _ _ _ _ _ _ _ _ _ Hrun c Hc) as [Hin|Hnew].
  - by apply elem_of_nil in Hin.
  - congruence.
Qed.

End Membership.

Lemma known_chapter_never_queued_witness :
  is_chapter_exists [failed (Some "c1") (Some "1") (Some "One")]
    (sample (Some "c1") (Some "1") (Some "One")) = true
  /\ sample (Some "c1") (Some "1") (Some "One")
     ∉ [sample (Some "c2") (Some "2") (Some "Two")].
Proof.
  destruct (known_chapter_never_queued
              [failed (Some "c1") (Some "1") (Some "One")]
              (failed (Some "c1") (Some "1") (Some "One"))
              (sample (Some "c1") (Some "1") (Some "One")))
    as [Hknown Hqueue].
  - apply list_elem_of_here.
  - reflexivity.
  - split; [exact Hknown|].
    eapply (Hqueue 1 "https://lightnovelpub.org" "n"
              (fresh_world (fun _ =>
                 listing_page [sample (Some "c1") (Some "1") (Some "One");
                               sample (Some "c2") (Some "2") (Some "Two")] false))
              [sample (Some "c2") (Some "2") (Some "Two")]).
    reflexivity.
Defined.

(** ** Content Fetcher *)

Section Fetcher.

Implicit Types (w : world) (url : string).

(** A run of failed attempts: nothing is returned, one request is made
    per attempt, and only the request counter and the trace change. *)
Lemma retry_attempts_all_fail url max_retries delay attempts :
  forall w,
    (forall k, k < length attempts ->
       attempt_fails (w_http w (w_requests w + k)) = true) ->
    exists w' tr,
      retry_attempts url max_retries delay attempts w = (None, w')
      /\ w_http w' = w_http w
      /\ w_requests w' = w_requests w + length attempts
      /\ w_clock w' = w_clock w /\ w_ticks w' = w_ticks w /\ w_files w' = w_files w
      /\ w_trace w' = w_trace w ++ tr
      /\ List.filter is_get tr = replicate (length attempts) (EvGet url).
Proof.
  induction attempts as [|attempt rest IH]; intros w Hfail.
  - exists w, []. simpl. rewrite app_nil_r, Nat.add_0_r. by repeat split.
  - pose proof (Hfail 0 ltac:(simpl; lia)) as H0. rewrite Nat.add_0_r in H0.
    simpl. unfold bind, http_get. unfold attempt_fails in H0.
    set (w1 := emit (EvGet url) _).
    assert (Hnext : forall w2 extra,
              w_http w2 = w_http w -> w_requests w2 = S (w_requests w) ->
              w_clock w2 = w_clock w -> w_ticks w2 = w_ticks w ->
              w_files w2 = w_files w ->
              w_trace w2 = w_trace w ++ EvGet url :: extra ->
              List.filter is_get extra = [] ->
              exists w' tr,
                retry_attempts url max_retries delay rest w2 = (None, w')
                /\ w_http w' = w_http w
                /\ w_requests w' = w_requests w + S (length rest)
                /\ w_clock w' = w_clock w /\ w_ticks w' = w_ticks w
                /\ w_files w' = w_files w
                /\ w_trace w' = w_trace w ++ tr
                /\ List.filter is_get tr = EvGet url :: replicate (length rest) (EvGet url)).
    { intros w2 extra Hh Hr Hc Ht Hf Htr Hextra.
      destruct (IH w2) as (w' & tr & Hrun & Hh' & Hr' & Hc' & Ht' & Hf' & Htr' & Hgets).
      { intros k Hk. rewrite Hh, Hr.
        replace (S (w_requests w) + k) with (w_requests w + S k) by lia.
        apply Hfail. simpl. lia. }
      exists w', (EvGet url :: extra ++ tr).
      repeat split; try congruence.
      - lia.
      - rewrite Htr', Htr, <- app_assoc. reflexivity.
      - simpl. rewrite List.filter_app, Hextra, Hgets. reflexivity. }
    destruct (w_http w (w_requests w)) as [|soup].
    + destruct (attempt <? max_retries - 1).
      * unfold sleep. apply (Hnext _ [EvSleep (delay * (attempt + 1))]); try reflexivity.
        simpl. by rewrite <- app_assoc.
      * apply (Hnext _ []); reflexivity.
    + destruct (doc_chapter_text soup) as [content|].
      * apply negb_true_iff in H0. rewrite H0. apply (Hnext _ []); reflexivity.
      * apply (Hnext _ []); reflexivity.
Qed.

(** C7.  When the three attempts on a chapter url all fail, three requests
    are made and no fourth, the fetcher returns nothing, and the caller
    marks the record with a null content and the error "Failed to fetch
    content", appends it, and goes on with the stubs that remain. *)
Theorem retry_exhaustion w queued url :
  ch_url queued = Some url ->
  url <> "" ->
  (forall k, k < 3 -> attempt_fails (w_http w (w_requests w + k)) = true) ->
  (exists w1 tr,
     get_chapter_content_with_retry url 3 2 w = (None, w1)
     /\ w_requests w1 = w_requests w + 3
     /\ w_trace w1 = w_trace w ++ tr
     /\ List.filter is_get tr = [EvGet url; EvGet url; EvGet url])
  /\ (exists chap w',
        fetch_chapter queued w = (chap, w')
        /\ ch_content chap = None
        /\ ch_error chap = Some "Failed to fetch content"
        /\ w_requests w' = w_requests w + 3
        /\ forall novel_slug existing_data total rest i processed_count all_new_chapters,
             process_chapters novel_slug existing_data total (queued :: rest) i
               processed_count all_new_chapters w
             = (_ <- (if ((processed_count + 1) mod 10 =? 0)
                         || (processed_count + 1 =? total) then
                        save_partial_novel_data novel_slug existing_data
                          (all_new_chapters ++ [chap]) (processed_count + 1) i
                      else ret tt) ;;
                _ <- (if i <? total then sleep 1 else ret tt) ;;
                process_chapters novel_slug existing_data total rest (i + 1)
                  (processed_count + 1) (all_new_chapters ++ [chap])) w').
Proof.
  intros Hurl Hne Hfail. split.
  - destruct (retry_attempts_all_fail url 3 2 (seq 0 3) w Hfail)
      as (w1 & tr & Hrun & _ & Hreq & _ & _ & _ & Htr & Hgets).
    exists w1, tr. by repeat split.
  - pose (w0 := mk_world (w_http w) (w_requests w) (w_clock w) (S (w_ticks w))
                   (w_files w) (w_trace w)).
    destruct (retry_attempts_all_fail url 3 2 (seq 0 3) w0 Hfail)
      as (w1 & tr & Hrun & _ & Hreq & _ & _ & _ & _ & _).
    assert (Hfetch : fetch_chapter queued w
                     = (set_error (Some "Failed to fetch content")
                          (set_content None
                             (set_content_scraped_at (Some (w_clock w1 (w_ticks w1)))
                                (set_content None
                                   (set_scraped_at (Some (w_clock w (w_ticks w))) queued)))),
                        snd (get_current_timestamp w1))).
    { unfold fetch_chapter, bind. simpl. rewrite Hurl. simpl.
      rewrite (bool_decide_eq_false_2 _ Hne). simpl.
      unfold get_chapter_content_with_retry. subst w0.
      rewrite Hrun. reflexivity. }
    eexists _, _. split; [exact Hfetch|]. repeat split.
    + simpl. exact Hreq.
    + intros. simpl. unfold bind at 1. rewrite Hfetch. reflexivity.
Qed.

Lemma retry_exhaustion_witness :
  fst (get_chapter_content_with_retry sample_url 3 2 (fresh_world failing_site)) = None
  /\ ch_error (fst (fetch_chapter (sample (Some "c1") (Some "1") None)
                      (fresh_world failing_site)))
     = Some "Failed to fetch content".
Proof.
  destruct (retry_exhaustion (fresh_world failing_site)
              (sample (Some "c1") (Some "1") None) sample_url)
    as [(w1 & tr & Hrun & _) (chap & w' & Hfetch & _ & Herr & _)].
  - reflexivity.
  - discriminate.
  - intros [|[|[|k]]] Hk; [reflexivity ..|lia].
  - rewrite Hrun, Hfetch. split; [reflexivity|exact Herr].
Defined.

(** After a request that raised, the fetcher waits [delay] times the
    number of the failed attempt before the next one. *)
Lemma backoff_on_exceptions url delay w :
  (forall k, k < 3 -> w_http w (w_requests w + k) = HttpError) ->
  w_trace (snd (get_chapter_content_with_retry url 3 delay w))
  = w_trace w ++ [EvGet url; EvSleep (delay * 1); EvGet url; EvSleep (delay * 2);
                  EvGet url].
Proof.
  intros Hfail.
  pose proof (Hfail 0 ltac:(lia)) as H0. pose proof (Hfail 1 ltac:(lia)) as H1.
  pose proof (Hfail 2 ltac:(lia)) as H2.
  rewrite Nat.add_0_r in H0. rewrite Nat.add_1_r in H1.
  replace (w_requests w + 2) with (S (S (w_requests w))) in H2 by lia.
  unfold get_chapter_content_with_retry. simpl.
  unfold bind, http_get, sleep, emit, ret. simpl.
  rewrite H0. simpl. rewrite H1. simpl. rewrite H2. simpl.
  rewrite <- !app_assoc. reflexivity.
Qed.

(** After an attempt that got a page, but no usable text from it, the
    next attempt follows at once: the only effect in between is the
    request itself. *)
Lemma soft_failure_no_wait url max_retries delay attempt rest w soup :
  w_http w (w_requests w) = HttpOk soup ->
  attempt_fails (HttpOk soup) = true ->
  retry_attempts url max_retries delay (attempt :: rest) w
  = retry_attempts url max_retries delay rest (snd (http_get url w)).
Proof.
  intros Hget Hfail. simpl in *. unfold bind, http_get. rewrite Hget.
  destruct (doc_chapter_text soup) as [content|]; [|reflexivity].
  apply negb_true_iff in Hfail. by rewrite Hfail.
Qed.

(** C4 at the failing inputs.  When the three attempts each get a page
    but no usable text from it - no content element, or a text that is
    too short - the three requests follow one another with no wait in
    between, and nothing is returned; the claim has waits of [delay] and
    [2 * delay] there. *)
Theorem no_backoff_without_exception url delay w :
  (forall k, k < 3 ->
     exists soup, w_http w (w_requests w + k) = HttpOk soup
                  /\ attempt_fails (HttpOk soup) = true) ->
  fst (get_chapter_content_with_retry url 3 delay w) = None
  /\ w_trace (snd (get_chapter_content_with_retry url 3 delay w))
     = w_trace w ++ [EvGet url; EvGet url; EvGet url].
Proof.
  intros Hsoft.
  destruct (Hsoft 0 ltac:(lia)) as (soup0 & H0 & Hf0).
  destruct (Hsoft 1 ltac:(lia)) as (soup1 & H1 & Hf1).
  destruct (Hsoft 2 ltac:(lia)) as (soup2 & H2 & Hf2).
  rewrite Nat.add_0_r in H0. rewrite Nat.add_1_r in H1.
  replace (w_requests w + 2) with (S (S (w_requests w))) in H2 by lia.
  unfold get_chapter_content_with_retry. cbn [seq].
  erewrite soft_failure_no_wait; [|exact H0|exact Hf0].
  erewrite soft_failure_no_wait; [|exact H1|exact Hf1].
  erewrite soft_failure_no_wait; [|exact H2|exact Hf2].
  simpl. rewrite <- !app_assoc. by split.
Qed.

Lemma no_backoff_without_exception_witness :
  w_trace (snd (get_chapter_content_with_retry sample_url 3 2
                  (fresh_world (fun n => if n =? 0 then bare_page
                                         else chapter_page "too short"))))
  = [EvGet sample_url; EvGet sample_url; EvGet sample_url].
Proof.
  apply (no_backoff_without_exception sample_url 2
           (fresh_world (fun n => if n =? 0 then bare_page
                                  else chapter_page "too short"))).
  intros [|[|[|k]]] Hk; [eexists; split; reflexivity ..|lia].
Defined.

(** The same three attempts when every request raises. *)
Example backoff_on_exceptions_example :
  w_trace (snd (get_chapter_content_with_retry sample_url 3 2
                  (fresh_world (fun _ => HttpError))))
  = [EvGet sample_url; EvSleep 2; EvGet sample_url; EvSleep 4; EvGet sample_url].
Proof. reflexivity. Qed.

Lemma py_strip_empty : py_strip "" = "".
Proof. reflexivity. Qed.

Lemma content_ok_length content :
  content_ok content = true <-> 10 < String.length (py_strip content).
Proof.
  unfold content_ok. rewrite andb_true_iff, Nat.ltb_lt. split; [tauto|].
  intros Hlen. split; [|assumption].
  apply truthy_nonempty. intros ->. rewrite py_strip_empty in Hlen. simpl in Hlen. lia.
Qed.

(** C5, as amended.  An extracted body is a failed attempt, followed by
    the next attempt if one remains, exactly when its trimmed length is
    at most 10 characters; a body whose trimmed length is 11 or more is
    returned at once. *)
Theorem content_length_boundary url max_retries delay attempt rest w soup content :
  w_http w (w_requests w) = HttpOk soup ->
  doc_chapter_text soup = Some content ->
  (String.length (py_strip content) <= 10 ->
   attempt_fails (HttpOk soup) = true
   /\ retry_attempts url max_retries delay (attempt :: rest) w
      = retry_attempts url max_retries delay rest (snd (http_get url w)))
  /\ (10 < String.length (py_strip content) ->
      attempt_fails (HttpOk soup) = false
      /\ retry_attempts url max_retries delay (attempt :: rest) w
         = (Some content, snd (http_get url w))).
Proof.
  intros Hget Htext. pose proof (content_ok_length content) as Hok.
  split; intros Hlen.
  - assert (content_ok content = false) as Hko.
    { apply not_true_is_false. intros H%Hok. lia. }
    split; [simpl; by rewrite Htext, Hko|].
    simpl. unfold bind, http_get. rewrite Hget, Htext, Hko. reflexivity.
  - apply Hok in Hlen. split; [simpl; by rewrite Htext, Hlen|].
    simpl. unfold bind, http_get. rewrite Hget, Htext, Hlen. reflexivity.
Qed.

Lemma content_length_boundary_witness :
  retry_attempts sample_url 3 2 [2] (fresh_world (fun _ => chapter_page "0123456789"))
  = (None, snd (http_get sample_url (fresh_world (fun _ => chapter_page "0123456789"))))
  /\ retry_attempts sample_url 3 2 [2] (fresh_world (fun _ => chapter_page "0123456789a"))
     = (Some "0123456789a",
        snd (http_get sample_url (fresh_world (fun _ => chapter_page "0123456789a")))).
Proof.
  split.
  - apply (proj1 (content_length_boundary sample_url 3 2 2 []
                    (fresh_world (fun _ => chapter_page "0123456789"))
                    (mk_document [] false (Some "0123456789")) "0123456789"
                    eq_refl eq_refl)).
    vm_compute. lia.
  - apply (proj2 (content_length_boundary sample_url 3 2 2 []
                    (fresh_world (fun _ => chapter_page "0123456789a"))
                    (mk_document [] false (Some "0123456789a")) "0123456789a"
                    eq_refl eq_refl)).
    vm_compute. lia.
Defined.

(** C5 as stated fails: a body of exactly 10 characters is rejected at
    every attempt, and the fetcher returns nothing. *)
Lemma content_length_counterexample :
  ~ (forall content,
       String.length (py_strip content) = 10 ->
       fst (get_chapter_content_with_retry sample_url 3 2
              (fresh_world (fun _ => chapter_page content))) = Some content).
Proof.
  intros H. specialize (H "0123456789" eq_refl). vm_compute in H. discriminate H.
Qed.

End Fetcher.

(** ** Sort pass: the key of a record with a number *)

Section KeyTotal.

Import PyFloat.

Lemma digit_not c x : is_digit c = true -> is_digit x = false -> c <> x.
Proof. intros Hc Hx ->. congruence. Qed.

Lemma digit_not_space c : is_digit c = true -> float_isspace c = false.
Proof.
  unfold is_digit, float_isspace. intros [H1 H2]%andb_true_iff.
  apply Nat.leb_le in H1, H2.
  repeat (apply orb_false_iff; split).
  - apply andb_false_iff. right. apply Nat.leb_gt. lia.
  - apply Nat.eqb_neq. lia.
  - apply Nat.eqb_neq. lia.
  - apply Nat.eqb_neq. lia.
Qed.

Lemma digit_lower c : is_digit c = true -> lower c = c.
Proof.
  unfold is_digit, lower. intros [H1 H2]%andb_true_iff. apply Nat.leb_le in H1, H2.
  assert ((65 <=? nat_of_ascii c) = false) as -> by (apply Nat.leb_gt; lia).
  reflexivity.
Qed.

Lemma plain_not_underscore c : plain c = true -> c <> "_"%char.
Proof. intros H ->. discriminate H. Qed.

Lemma plain_not_space c : plain c = true -> float_isspace c = false.
Proof.
  intros [H|H]%orb_true_iff; [by apply digit_not_space|].
  apply bool_decide_eq_true in H as ->. reflexivity.
Qed.

Lemma all_plain_app s t : all_plain (s +:+ t) = all_plain s && all_plain t.
Proof. induction s as [|c s IH]; simpl; [reflexivity|]. by rewrite IH, andb_assoc. Qed.

Lemma all_digits_plain s : all_digits s = true -> all_plain s = true.
Proof.
  induction s as [|c s IH]; simpl; [reflexivity|].
  intros [Hc Hs]%andb_true_iff. unfold plain. by rewrite Hc, IH.
Qed.

Lemma numeric_token_plain token : numeric_token token -> all_plain token = true.
Proof.
  intros (ip & fp & Hip & _ & Hfp & [->| ->]); [by apply all_digits_plain|].
  rewrite !all_plain_app, (all_digits_plain ip Hip), (all_digits_plain fp Hfp).
  reflexivity.
Qed.

Lemma drop_underscores_plain s :
  forall prev, prev <> "_"%char -> all_plain s = true -> drop_underscores prev s = Some s.
Proof.
  induction s as [|c s IH]; intros prev Hprev Hs; simpl.
  - by rewrite bool_decide_eq_false_2.
  - simpl in Hs. apply andb_true_iff in Hs as [Hc Hs].
    pose proof (plain_not_underscore c Hc) as Hne.
    rewrite (bool_decide_eq_false_2 (c = "_"%char)) by assumption.
    rewrite (bool_decide_eq_false_2 (prev = "_"%char)) by assumption. simpl.
    by rewrite IH.
Qed.

Lemma rstrip_plain s : all_plain s = true -> rstrip float_isspace s = s.
Proof.
  induction s as [|c s IH]; simpl; [reflexivity|].
  intros [Hc Hs]%andb_true_iff. rewrite IH by assumption.
  destruct s; [|reflexivity]. by rewrite plain_not_space.
Qed.

Lemma float_strip_plain s : all_plain s = true -> float_strip s = s.
Proof.
  intros Hs. unfold float_strip, strip.
  assert (lstrip float_isspace s = s) as ->; [|by apply rstrip_plain].
  destruct s as [|c s]; [reflexivity|]. simpl in *.
  apply andb_true_iff in Hs as [Hc _]. by rewrite plain_not_space.
Qed.

Lemma span_digits_app ip rest :
  all_digits ip = true ->
  (rest = EmptyString \/ exists c t, rest = String c t /\ is_digit c = false) ->
  span_digits (ip +:+ rest) = (ip, rest).
Proof.
  intros Hip Hrest. induction ip as [|d ip IH]; simpl in *.
  - destruct Hrest as [->|(c & t & -> & Hc)]; [reflexivity|]. simpl. by rewrite Hc.
  - apply andb_true_iff in Hip as [Hd Hip]. by rewrite Hd, IH.
Qed.

Lemma span_digits_all ip : all_digits ip = true -> span_digits ip = (ip, EmptyString).
Proof.
  intros Hip. induction ip as [|d ip IH]; simpl in *; [reflexivity|].
  apply andb_true_iff in Hip as [Hd Hip]. by rewrite Hd, IH.
Qed.

(** [float] accepts every match of the pattern. *)
Lemma of_string_numeric_token token :
  numeric_token token -> exists x, of_string token = Some x.
Proof.
  intros Htok. pose proof (numeric_token_plain token Htok) as Hplain.
  destruct Htok as (ip & fp & Hip & Hne & Hfp & Hshape).
  destruct ip as [|d ip]; [done|]. clear Hne.
  pose proof Hip as Hip'. simpl in Hip'. apply andb_true_iff in Hip' as [Hd _].
  unfold of_string.
  rewrite drop_underscores_plain by (assumption || discriminate). simpl.
  rewrite float_strip_plain by assumption.
  assert (Hhead : exists t, token = String d t).
  { destruct Hshape as [->| ->]; eexists; reflexivity. }
  destruct Hhead as [t Ht].
  assert (Hsign : split_sign token = (false, token)).
  { rewrite Ht. unfold split_sign.
    rewrite !bool_decide_eq_false_2; [reflexivity|apply digit_not..]; done. }
  rewrite Hsign.
  assert (Hword : forall w c r, w = String c r -> is_digit c = false ->
            bool_decide (lower_string token = w) = false).
  { intros w c r -> Hc. apply bool_decide_eq_false_2. rewrite Ht. simpl.
    rewrite digit_lower by assumption. intros [= -> _]. congruence. }
  rewrite (Hword "inf" _ _ eq_refl eq_refl), (Hword "infinity" _ _ eq_refl eq_refl),
    (Hword "nan" _ _ eq_refl eq_refl). simpl.
  unfold parse_decimal.
  destruct Hshape as [->| ->].
  - rewrite span_digits_all by assumption. simpl. eauto.
  - rewrite span_digits_app; [|assumption|right; eexists _, _; split; reflexivity].
    unfold split_fraction. simpl. rewrite span_digits_all by assumption.
    simpl. eauto.
Qed.

Lemma string_app_assoc (a b c : string) : (a +:+ b) +:+ c = a +:+ (b +:+ c).
Proof.
  induction a as [|x a IH]; [reflexivity|].
  change (String x ((a +:+ b) +:+ c) = String x (a +:+ (b +:+ c))). by rewrite IH.
Qed.

Lemma all_digits_push token c :
  all_digits (push token c) = all_digits token && is_digit c.
Proof.
  unfold push. induction token as [|x token IH]; simpl.
  - by rewrite andb_true_r.
  - by rewrite IH, andb_assoc.
Qed.

Lemma push_nonempty token c : push token c <> EmptyString.
Proof. unfold push. destruct token; discriminate. Qed.

(** Every match the scanner returns has the shape of the pattern. *)
Lemma scan_numbers_tokens s :
  forall st, scan_state_ok st -> Forall numeric_token (scan_numbers st s).
Proof.
  induction s as [|c s IH]; intros st Hst.
  - destruct st as [|token|token]; simpl in *.
    + constructor.
    + destruct Hst as [Hd Hne]. repeat constructor.
      exists token, EmptyString. repeat split; auto.
    + destruct Hst as (ip & fp & Hip & Hne & Hfp & ->). repeat constructor.
      exists ip, fp. repeat split; auto.
  - destruct st as [|token|token]; simpl in *.
    + destruct (is_digit c) eqn:Hc; apply IH; simpl; [|exact I].
      rewrite Hc. split; [reflexivity|discriminate].
    + destruct Hst as [Hd Hne]. destruct (is_digit c) eqn:Hc.
      * apply IH. simpl. rewrite all_digits_push, Hd, Hc.
        split; [reflexivity|apply push_nonempty].
      * case_bool_decide as Hdot.
        -- subst c. apply IH. simpl. exists token, EmptyString.
           repeat split; auto.
        -- constructor; [|apply IH; exact I].
           exists token, EmptyString. repeat split; auto.
    + destruct Hst as (ip & fp & Hip & Hne & Hfp & ->).
      destruct (is_digit c) eqn:Hc.
      * apply IH. simpl. exists ip, (push fp c).
        rewrite all_digits_push, Hfp, Hc. repeat split; auto.
        unfold push. rewrite string_app_assoc. reflexivity.
      * constructor; [|apply IH; exact I].
        exists ip, fp. repeat split; auto.
Qed.

(** The key of a record whose number is a string can always be
    computed. *)
Lemma chapter_key_number c s :
  ch_number c = Some s -> exists x, chapter_key c = Ok x.
Proof.
  intros Hs. unfold chapter_key. rewrite Hs.
  destruct (py_float (Some s)) as [x|e]; [eauto|]. simpl.
  pose proof (scan_numbers_tokens s Outside I) as Htok.
  destruct (scan_numbers Outside s) as [|first rest]; [eauto|].
  apply Forall_cons in Htok as [Hfirst _].
  destruct (of_string_numeric_token first Hfirst) as [x Hx].
  exists x. by rewrite Hx.
Qed.

(** The key of a record whose number is null cannot: the exception is a
    [TypeError]. *)
Lemma chapter_key_null c : ch_number c = None -> chapter_key c = Raise TypeError.
Proof. intros Hn. unfold chapter_key. by rewrite Hn. Qed.

Lemma keyed_ok l :
  Forall (fun c => ch_number c <> None) l ->
  exists ks, keyed l = Ok ks /\ map snd ks = l.
Proof.
  induction 1 as [|c l Hc _ (ks & Hks & Hmap)]; simpl.
  - by exists [].
  - destruct (ch_number c) as [s|] eqn:Hs; [|done].
    destruct (chapter_key_number c s Hs) as [x ->]. rewrite Hks.
    exists ((x, c) :: ks). simpl. by rewrite Hmap.
Qed.

(** On a list without null number [sort_chapters] returns. *)
Lemma sort_chapters_returns l :
  Forall (fun c => ch_number c <> None) l -> exists r, sort_chapters l = Ok r.
Proof. unfold sort_chapters. intros (ks & -> & _)%keyed_ok. eauto. Qed.

(** C8 at the failing inputs.  As soon as one record has a null number,
    [sort_chapters] raises a [TypeError] instead of returning: the key of
    that record cannot be computed, because [re.findall] is called on
    [None] inside the handler of the first [TypeError]. *)
Theorem sort_chapters_null_number l :
  Exists (fun c => ch_number c = None) l -> sort_chapters l = Raise TypeError.
Proof.
  intros Hnull. unfold sort_chapters.
  assert (keyed l = Raise TypeError) as ->; [|reflexivity].
  induction l as [|c l IH]; [by apply Exists_nil in Hnull|].
  simpl. destruct (ch_number c) as [s|] eqn:Hs.
  - destruct (chapter_key_number c s Hs) as [x ->].
    apply Exists_cons in Hnull as [Hc|Hl]; [congruence|]. by rewrite IH.
  - by rewrite chapter_key_null.
Qed.

Lemma sort_chapters_null_number_witness :
  sort_chapters [sample (Some "c2") (Some "2") None;
                 sample (Some "c0") None (Some "Prologue");
                 sample (Some "c1") (Some "1") None] = Raise TypeError.
Proof.
  apply sort_chapters_null_number.
  apply Exists_cons_tl, Exists_cons_hd. reflexivity.
Defined.

End KeyTotal.

(** ** Sort pass: order, permutation, stability *)

Section SortOrder.

Import PyFloat.

Ltac compare_cases :=
  repeat match goal with
    | |- context [Z.compare ?x ?y] => destruct (Z.compare_spec x y)
    | H : context [Z.compare ?x ?y] |- _ => destruct (Z.compare_spec x y)
    | |- context [Pos.compare_cont Eq ?x ?y] =>
        change (Pos.compare_cont Eq x y) with (Pos.compare x y);
        destruct (Pos.compare_spec x y)
    | H : context [Pos.compare_cont Eq ?x ?y] |- _ =>
        change (Pos.compare_cont Eq x y) with (Pos.compare x y) in H;
        destruct (Pos.compare_spec x y)
    end.

Lemma lt_asym a b : lt a b = true -> lt b a = false.
Proof.
  unfold lt, SFltb, SFcompare.
  destruct a as [sa|sa| |sa ma ea], b as [sb|sb| |sb mb eb];
    try destruct sa; try destruct sb; simpl; try done;
    compare_cases; simpl; try done; lia.
Qed.

(** Without nan, "not smaller" is transitive. *)
Lemma le_trans a b c :
  isnan a = false -> isnan b = false -> isnan c = false ->
  lt b a = false -> lt c b = false -> lt c a = false.
Proof.
  unfold lt, SFltb, SFcompare.
  destruct a as [sa|sa| |sa ma ea], b as [sb|sb| |sb mb eb], c as [sc|sc| |sc mc ec];
    try destruct sa; try destruct sb; try destruct sc; simpl; try done;
    intros _ _ _; compare_cases; simpl; try done; lia.
Qed.

Implicit Types (x y : spec_float * chapter) (l ks : list (spec_float * chapter)).

Lemma insert_keyed_perm x l : insert_keyed x l ≡ₚ x :: l.
Proof.
  induction l as [|y l IH]; simpl; [reflexivity|].
  destruct (lt y.1 x.1); [|reflexivity].
  rewrite IH. apply perm_swap.
Qed.

Lemma stable_sort_perm l : stable_sort l ≡ₚ l.
Proof.
  induction l as [|x l IH]; simpl; [reflexivity|].
  by rewrite insert_keyed_perm, IH.
Qed.

Lemma insert_keyed_sorted x l :
  isnan x.1 = false ->
  Forall (fun y => isnan y.1 = false) l ->
  StronglySorted (fun p q => lt q.1 p.1 = false) l ->
  StronglySorted (fun p q => lt q.1 p.1 = false) (insert_keyed x l).
Proof.
  intros Hx Hnan Hsorted.
  induction Hsorted as [|y l Hl IH Hy]; simpl; [repeat constructor|].
  apply Forall_cons in Hnan as [Hynan Hnan].
  destruct (lt y.1 x.1) eqn:Hlt.
  - constructor; [by apply IH|].
    rewrite insert_keyed_perm. constructor; [by apply lt_asym|assumption].
  - constructor; [by constructor|].
    constructor; [assumption|].
    rewrite Forall_forall in Hy, Hnan. apply Forall_forall. intros z Hz.
    apply (le_trans x.1 y.1 z.1); auto.
Qed.

Lemma stable_sort_sorted l :
  Forall (fun y => isnan y.1 = false) l ->
  StronglySorted (fun p q => lt q.1 p.1 = false) (stable_sort l).
Proof.
  induction 1 as [|x l Hx Hl IH]; simpl; [constructor|].
  apply insert_keyed_sorted; [assumption| |assumption].
  by rewrite stable_sort_perm.
Qed.

(** Among the records that tie with a key, insertion puts the new one
    first: it only passes records with a smaller key. *)
Lemma insert_keyed_ties k x l :
  isnan k = false -> isnan x.1 = false ->
  Forall (fun y => isnan y.1 = false) l ->
  List.filter (fun p => ties k p.1) (insert_keyed x l)
  = List.filter (fun p => ties k p.1) (x :: l).
Proof.
  intros Hk Hx Hnan. induction Hnan as [|y l Hy _ IH]; [reflexivity|].
  simpl in *. destruct (lt y.1 x.1) eqn:Hlt; [|reflexivity].
  simpl. rewrite IH.
  destruct (ties k x.1) eqn:Hkx; [|reflexivity].
  destruct (ties k y.1) eqn:Hky; [|reflexivity].
  unfold ties in Hkx, Hky.
  apply andb_true_iff in Hkx as [Hxk%negb_true_iff _].
  apply andb_true_iff in Hky as [_ Hyk%negb_true_iff].
  pose proof (le_trans x.1 k y.1 Hx Hk Hy Hxk Hyk). congruence.
Qed.

Lemma stable_sort_ties k l :
  isnan k = false ->
  Forall (fun y => isnan y.1 = false) l ->
  List.filter (fun p => ties k p.1) (stable_sort l)
  = List.filter (fun p => ties k p.1) l.
Proof.
  intros Hk. induction 1 as [|x l Hx Hl IH]; [reflexivity|].
  simpl stable_sort. rewrite insert_keyed_ties; [|assumption..|by rewrite stable_sort_perm].
  simpl. by rewrite IH.
Qed.

Lemma keyed_pairs chapters ks :
  keyed chapters = Ok ks ->
  map snd ks = chapters /\ Forall (fun p => chapter_key p.2 = Ok p.1) ks.
Proof.
  revert ks. induction chapters as [|c chapters IH]; intros ks; simpl.
  - intros [= <-]. by split.
  - destruct (chapter_key c) as [k|e] eqn:Hk; [|discriminate].
    destruct (keyed chapters) as [ks'|e]; [|discriminate].
    intros [= <-]. destruct (IH ks' eq_refl) as [Hmap Hall].
    simpl. split; [by rewrite Hmap|by constructor].
Qed.

Lemma keyed_map_snd ks :
  Forall (fun p => chapter_key p.2 = Ok p.1) ks -> keyed (map snd ks) = Ok ks.
Proof.
  induction 1 as [|[k c] ks Hk _ IH]; simpl in *; [reflexivity|].
  by rewrite Hk, IH.
Qed.

Lemma filter_map_snd (f : chapter -> bool) ks :
  List.filter f (map snd ks) = map snd (List.filter (fun p => f p.2) ks).
Proof.
  induction ks as [|p ks IH]; simpl; [reflexivity|].
  destruct (f p.2); simpl; by rewrite IH.
Qed.

Lemma sort_chapters_perm chapters r : sort_chapters chapters = Ok r -> r ≡ₚ chapters.
Proof.
  unfold sort_chapters. destruct (keyed chapters) as [ks|e] eqn:Hks; [|discriminate].
  intros [= <-]. destruct (keyed_pairs _ _ Hks) as [Hmap _].
  rewrite <- Hmap. apply fmap_Permutation, stable_sort_perm.
Qed.

(** On a list whose keys can all be computed and are not nan,
    [sort_chapters] returns a permutation of the list that is sorted by
    key, and in which the records that tie keep their order. *)
Lemma sort_chapters_ordered chapters r :
  sort_chapters chapters = Ok r ->
  Forall (fun c => isnan (key_of c) = false) chapters ->
  r ≡ₚ chapters
  /\ sorted_by_number r
  /\ forall k, isnan k = false ->
       List.filter (fun c => ties k (key_of c)) r
       = List.filter (fun c => ties k (key_of c)) chapters.
Proof.
  unfold sort_chapters. destruct (keyed chapters) as [ks|e] eqn:Hks; [|discriminate].
  intros [= <-] Hnan. destruct (keyed_pairs _ _ Hks) as [Hmap Hkeys].
  assert (Hkey_of : forall p, p ∈ ks -> key_of p.2 = p.1).
  { intros p Hp. rewrite Forall_forall in Hkeys. unfold key_of. by rewrite Hkeys. }
  assert (Hnan' : Forall (fun y => isnan y.1 = false) ks).
  { apply Forall_forall. intros p Hp. rewrite <- Hkey_of by assumption.
    rewrite Forall_forall in Hnan. apply Hnan. rewrite <- Hmap.
    apply list_elem_of_fmap. by exists p. }
  split; [|split].
  - rewrite <- Hmap. apply fmap_Permutation, stable_sort_perm.
  - unfold sorted_by_number. rewrite keyed_map_snd.
    + unfold nondecreasing.
      apply (StronglySorted_fmap fst (fun p q => lt q.1 p.1 = false)); [done|].
      by apply stable_sort_sorted.
    + by rewrite stable_sort_perm.
  - intros k Hk. rewrite <- Hmap. rewrite !filter_map_snd.
    assert (Hext : forall l, (forall p, p ∈ l -> p ∈ ks) ->
              List.filter (fun p => ties k (key_of p.2)) l
              = List.filter (fun p => ties k p.1) l).
    { intros l Hl. apply filter_ext_in. intros p Hp.
      rewrite Hkey_of; [reflexivity|]. by apply Hl, list_elem_of_In. }
    rewrite !Hext; [|done|].
    + by rewrite stable_sort_ties.
    + intros p Hp. by rewrite stable_sort_perm in Hp.
Qed.

End SortOrder.

(** ** Sort pass and checkpoints *)

Section SortPass.

(** The sort example of the specification. *)
Example sort_chapters_example :
  sort_chapters
    (map (fun n => sample None (Some n) None) ["3"; "1"; "2.5"; "abc 10"; "xyz"])
  = Ok (map (fun n => sample None (Some n) None) ["1"; "2.5"; "3"; "abc 10"; "xyz"]).
Proof. vm_compute. reflexivity. Qed.

Example chapter_key_values :
  chapter_key (sample None (Some "2.5") None) = Ok (S754_finite false 5629499534213120 (-51))
  /\ chapter_key (sample None (Some "abc 10") None) = Ok (S754_finite false 5629499534213120 (-49))
  /\ chapter_key (sample None (Some "xyz") None) = Ok PyFloat.inf.
Proof. vm_compute. repeat split. Qed.

(** A record without number, alone in the list. *)
Example sort_chapters_prologue :
  chapter_key (sample (Some "c0") None (Some "Prologue")) = Raise TypeError
  /\ sort_chapters [sample (Some "c0") None (Some "Prologue")] = Raise TypeError.
Proof. split; reflexivity. Qed.

(** What a checkpoint writes is the merge, as it is. *)
Lemma save_partial_novel_data_writes novel_slug existing_data new_chapters processed i w :
  exists meta info,
    w_trace (snd (save_partial_novel_data novel_slug existing_data new_chapters
                    processed i w))
    = w_trace w
      ++ [EvWrite (novel_filename novel_slug)
            (mk_dataset meta info
               (merge_chapters
                  (match existing_data with Some d => ds_chapters d | None => [] end)
                  new_chapters))].
Proof. eexists _, _. reflexivity. Qed.

(** C3 at the failing input: on a novel without file, whose listing shows
    chapter 2 before chapter 1, the checkpoint taken after the last
    chapter writes the chapters in the order 2, 1, which is not sorted;
    the final save then writes them sorted. *)
Theorem checkpoint_write_unsorted :
  let w := snd (second_pass_step 2 "https://lightnovelpub.org" sample_novel
                  (fresh_world latest_first_site)) in
  exists partial complete,
    List.filter is_write (w_trace w)
    = [EvWrite "data/novels/n.json" partial; EvWrite "data/novels/n.json" complete]
    /\ map ch_number (ds_chapters partial) = [Some "2"; Some "1"]
    /\ ~ sorted_by_number (ds_chapters partial)
    /\ map ch_number (ds_chapters complete) = [Some "1"; Some "2"]
    /\ sorted_by_number (ds_chapters complete).
Proof.
  eexists _, _. split; [vm_compute; reflexivity|].
  split; [reflexivity|]. split; [compute_done|]. split; [reflexivity|compute_done].
Qed.

(** The final save, when it is reached, writes a sorted sequence (no key
    being nan): this path sorts what it merged. *)
Lemma final_save_sorted fuel base_url novel_data w chapters w' :
  second_pass_step fuel base_url novel_data w = (Some (Ok chapters), w') ->
  Forall (fun c => PyFloat.isnan (key_of c) = false) chapters ->
  sorted_by_number chapters
  /\ exists slug meta,
       novel_data !! "slug" = Some slug
       /\ w_files w' !! novel_filename slug = Some (mk_dataset meta novel_data chapters).
Proof.
  unfold second_pass_step.
  destruct (novel_data !! "slug") as [slug|] eqn:Hslug; [|discriminate].
  destruct (novel_data !! "title") as [title|] eqn:Htitle; [|discriminate].
  unfold bind, load_existing_novel, read_json.
  destruct (get_all_chapters_for_novel fuel base_url slug
              (w_files w !! novel_filename slug) w) as [[[chs|e]|] w1] eqn:Hall;
    [|discriminate..].
  unfold save_complete_novel_to_json. rewrite Hslug, Htitle.
  unfold bind, get_current_timestamp, write_json, ret. simpl.
  intros [= <- <-] Hnan. split.
  - unfold get_all_chapters_for_novel, bind in Hall.
    destruct (collect_chapter_urls _ _ _ _ _ _ w) as [[queued|] w2]; [|discriminate].
    destruct (process_chapters _ _ _ _ _ _ _ w2) as [news w3].
    injection Hall as Hsort _.
    apply (sort_chapters_ordered _ _ Hsort).
    by rewrite <- (sort_chapters_perm _ _ Hsort).
  - eexists slug, _. split; [reflexivity|]. simpl. apply lookup_insert_eq.
Qed.

(** The checkpoint example of the specification: 23 new chapters give
    checkpoint writes of 10, 20 and 23 chapters, and then the final save. *)
Example checkpoint_boundary :
  let w := snd (second_pass_step 1 "https://lightnovelpub.org" sample_novel
                  (fresh_world long_novel_site)) in
  map (fun o => length <$> o) (map written_chapters (List.filter is_write (w_trace w)))
  = [Some 10; Some 20; Some 23; Some 23].
Proof. vm_compute. reflexivity. Qed.

End SortPass.

(** * Further properties *)

(** ** Content Fetcher: bounds and first success *)

Section FetcherMore.

Implicit Types (w : world) (url : string).

(** The loop over a list of attempts that is cut in two. *)
Lemma retry_attempts_app url max_retries delay l1 l2 :
  forall w,
    retry_attempts url max_retries delay (l1 ++ l2) w
    = match retry_attempts url max_retries delay l1 w with
      | (Some content, w1) => (Some content, w1)
      | (None, w1) => retry_attempts url max_retries delay l2 w1
      end.
Proof.
  induction l1 as [|attempt l1 IH]; intros w; [reflexivity|].
  simpl. unfold bind, http_get.
  destruct (w_http w (w_requests w)) as [|soup].
  - destruct (attempt <? max_retries - 1); [unfold sleep|]; apply IH.
  - destruct (doc_chapter_text soup) as [content|]; [|apply IH].
    destruct (content_ok content); [reflexivity|apply IH].
Qed.

(** What a run of attempts leaves unchanged, and how far it can go. *)
Lemma retry_attempts_frame url max_retries delay attempts :
  forall w r w',
    retry_attempts url max_retries delay attempts w = (r, w') ->
    w_http w' = w_http w /\ w_clock w' = w_clock w /\ w_ticks w' = w_ticks w
    /\ w_files w' = w_files w
    /\ w_requests w <= w_requests w' <= w_requests w + length attempts
    /\ (forall content, r = Some content ->
          content_ok content = true
          /\ w_requests w < w_requests w'
          /\ exists soup, w_http w (w_requests w' - 1) = HttpOk soup
                          /\ doc_chapter_text soup = Some content).
Proof.
  induction attempts as [|attempt rest IH]; intros w r w' Hrun.
  - injection Hrun as <- <-. simpl. do 4 (split; [reflexivity|]). split; [lia|].
    discriminate.
  - simpl in Hrun. unfold bind, http_get in Hrun.
    assert (Hstep : forall w1,
              w_http w1 = w_http w -> w_clock w1 = w_clock w ->
              w_ticks w1 = w_ticks w -> w_files w1 = w_files w ->
              w_requests w1 = S (w_requests w) ->
              retry_attempts url max_retries delay rest w1 = (r, w') ->
              w_http w' = w_http w /\ w_clock w' = w_clock w /\ w_ticks w' = w_ticks w
              /\ w_files w' = w_files w
              /\ w_requests w <= w_requests w' <= w_requests w + length (attempt :: rest)
              /\ (forall content, r = Some content ->
                    content_ok content = true
                    /\ w_requests w < w_requests w'
                    /\ exists soup, w_http w (w_requests w' - 1) = HttpOk soup
                                    /\ doc_chapter_text soup = Some content)).
    { intros w1 Hh Hc Ht Hf Hr Hrest.
      destruct (IH _ _ _ Hrest) as (Hh' & Hc' & Ht' & Hf' & Hr' & Hsome).
      simpl. do 4 (split; [congruence|]). split; [lia|].
      intros content ->.
      destruct (Hsome content eq_refl) as (Hok & Hlt & soup & Hs & Ht0).
      split; [assumption|]. split; [lia|].
      exists soup. split; [|assumption]. by rewrite <- Hh. }
    destruct (w_http w (w_requests w)) as [|soup] eqn:Hget.
    + destruct (attempt <? max_retries - 1); [unfold sleep in Hrun|];
        refine (Hstep _ _ _ _ _ _ Hrun); reflexivity.
    + destruct (doc_chapter_text soup) as [content|] eqn:Htext;
        [|refine (Hstep _ _ _ _ _ _ Hrun); reflexivity].
      destruct (content_ok content) eqn:Hok;
        [|refine (Hstep _ _ _ _ _ _ Hrun); reflexivity].
      injection Hrun as <- <-. simpl. do 4 (split; [reflexivity|]). split; [lia|].
      intros ? [= <-]. split; [assumption|]. split; [lia|].
      exists soup. by rewrite Nat.sub_0_r.
Qed.

(** X1.  Whatever the site answers, the fetcher makes at most
    [max_retries] requests, and it changes neither the files nor the
    clock. *)
Theorem fetcher_requests_bounded url max_retries delay w :
  w_requests w <= w_requests (snd (get_chapter_content_with_retry url max_retries delay w))
                <= w_requests w + max_retries
  /\ w_files (snd (get_chapter_content_with_retry url max_retries delay w)) = w_files w
  /\ w_ticks (snd (get_chapter_content_with_retry url max_retries delay w)) = w_ticks w.
Proof.
  unfold get_chapter_content_with_retry.
  destruct (retry_attempts url max_retries delay (seq 0 max_retries) w) as [r w'] eqn:Hrun.
  destruct (retry_attempts_frame _ _ _ _ _ _ _ Hrun) as (_ & _ & Ht & Hf & Hr & _).
  rewrite length_seq in Hr. simpl. auto.
Qed.

(** X2.  A content the fetcher returns is the text of the page it
    requested last, and its trimmed length is above 10. *)
Theorem fetcher_returns_checked_text url max_retries delay w content w' :
  get_chapter_content_with_retry url max_retries delay w = (Some content, w') ->
  10 < String.length (py_strip content)
  /\ exists soup, w_http w (w_requests w' - 1) = HttpOk soup
                  /\ doc_chapter_text soup = Some content.
Proof.
  intros Hrun. unfold get_chapter_content_with_retry in Hrun.
  destruct (retry_attempts_frame _ _ _ _ _ _ _ Hrun) as (_ & _ & _ & _ & _ & Hsome).
  destruct (Hsome content eq_refl) as (Hok & _ & Hsoup).
  split; [by apply content_ok_length|assumption].
Qed.

Lemma fetcher_returns_checked_text_witness :
  10 < String.length (py_strip "Once upon a time, in a land far away.").
Proof.
  apply (fetcher_returns_checked_text sample_url 3 2 (fresh_world failing_site_then_ok)
           "Once upon a time, in a land far away."
           (snd (get_chapter_content_with_retry sample_url 3 2
                   (fresh_world failing_site_then_ok)))).
  reflexivity.
Defined.

(** X3.  The fetcher stops at the first attempt that succeeds: when the
    attempts before the [j]-th fail and the [j]-th gets an acceptable
    text, that text is returned after exactly [j + 1] requests. *)
Theorem fetcher_first_success url max_retries delay w j soup content :
  j < max_retries ->
  (forall k, k < j -> attempt_fails (w_http w (w_requests w + k)) = true) ->
  w_http w (w_requests w + j) = HttpOk soup ->
  doc_chapter_text soup = Some content ->
  content_ok content = true ->
  fst (get_chapter_content_with_retry url max_retries delay w) = Some content
  /\ w_requests (snd (get_chapter_content_with_retry url max_retries delay w))
     = w_requests w + j + 1.
Proof.
  intros Hj Hfail Hget Htext Hok. unfold get_chapter_content_with_retry.
  replace max_retries with (j + S (max_retries - S j)) at 2 4 by lia.
  rewrite seq_app, retry_attempts_app.
  destruct (retry_attempts_all_fail url max_retries delay (seq 0 j) w)
    as (w1 & tr & -> & Hh & Hr & _).
  { intros k Hk. rewrite length_seq in Hk. by apply Hfail. }
  rewrite length_seq in Hr.
  simpl. unfold bind, http_get. rewrite Hh, Hr, Hget, Htext, Hok. simpl.
  split; [reflexivity|lia].
Qed.

Lemma fetcher_first_success_witness :
  fst (get_chapter_content_with_retry sample_url 3 2 (fresh_world failing_site_then_ok))
  = Some "Once upon a time, in a land far away.".
Proof.
  apply (fetcher_first_success sample_url 3 2 (fresh_world failing_site_then_ok) 2
           (mk_document [] false (Some "Once upon a time, in a land far away."))
           "Once upon a time, in a land far away.").
  - lia.
  - intros [|[|k]] Hk; [reflexivity..|lia].
  - reflexivity.
  - reflexivity.
  - reflexivity.
Defined.

End FetcherMore.

(** ** Processing loop *)

Section Processing.

Implicit Types (w : world) (c queued : chapter).

Lemma retry_attempts_no_write url max_retries delay attempts :
  forall w, exists tr,
    w_trace (snd (retry_attempts url max_retries delay attempts w)) = w_trace w ++ tr
    /\ List.filter is_write tr = [].
Proof.
  induction attempts as [|attempt rest IH]; intros w.
  - exists []. by rewrite app_nil_r.
  - simpl. unfold bind, http_get.
    assert (Hnext : forall w1 pre,
              w_trace w1 = w_trace w ++ pre -> List.filter is_write pre = [] ->
              exists tr,
                w_trace (snd (retry_attempts url max_retries delay rest w1))
                = w_trace w ++ tr /\ List.filter is_write tr = []).
    { intros w1 pre Hpre Hnw. destruct (IH w1) as (tr & Htr & Hnw').
      exists (pre ++ tr). rewrite Htr, Hpre, <- app_assoc, List.filter_app, Hnw, Hnw'.
      by split. }
    destruct (w_http w (w_requests w)) as [|soup].
    + destruct (attempt <? max_retries - 1).
      * unfold sleep. apply (Hnext _ [EvGet url; EvSleep (delay * (attempt + 1))]);
          [|reflexivity]. simpl. by rewrite <- app_assoc.
      * apply (Hnext _ [EvGet url]); reflexivity.
    + destruct (doc_chapter_text soup) as [content|];
        [|apply (Hnext _ [EvGet url]); reflexivity].
      destruct (content_ok content); [|apply (Hnext _ [EvGet url]); reflexivity].
      exists [EvGet url]. by split.
Qed.

(** What [fetch_chapter] leaves alone: the files, and the fields read
    from the listing; it writes nothing. *)
Lemma fetch_chapter_frame queued w :
  listing_fields (fst (fetch_chapter queued w)) = listing_fields queued
  /\ w_files (snd (fetch_chapter queued w)) = w_files w
  /\ exists tr, w_trace (snd (fetch_chapter queued w)) = w_trace w ++ tr
                /\ List.filter is_write tr = [].
Proof.
  unfold fetch_chapter, bind, get_current_timestamp. simpl.
  destruct (truthy (ch_url queued)).
  - unfold get_chapter_content_with_retry.
    set (w0 := mk_world _ _ _ _ _ _).
    destruct (retry_attempts_no_write (default "" (ch_url queued)) 3 2 (seq 0 3) w0)
      as (tr & Htr & Hnw).
    destruct (retry_attempts (default "" (ch_url queued)) 3 2 (seq 0 3) w0)
      as [content w1] eqn:Hrun.
    destruct (retry_attempts_frame _ _ _ _ _ _ _ Hrun) as (_ & _ & _ & Hf & _).
    simpl in Htr.
    destruct (truthy content); simpl; (split; [reflexivity|]); (split; [exact Hf|]);
      exists tr; by split.
  - simpl. split; [reflexivity|]. split; [reflexivity|].
    exists []. by rewrite app_nil_r.
Qed.

(** X4.  Whatever the site answers, a processed record keeps the fields
    read from the listing, and it ends in one of two states: a content
    whose trimmed length is above 10, with the error field as it was, or
    a null content with one of the two error messages. *)
Theorem fetch_chapter_outcome queued w :
  listing_fields (fst (fetch_chapter queued w)) = listing_fields queued
  /\ ((exists text, ch_content (fst (fetch_chapter queued w)) = Some text
                    /\ 10 < String.length (py_strip text)
                    /\ ch_error (fst (fetch_chapter queued w)) = ch_error queued)
      \/ (ch_content (fst (fetch_chapter queued w)) = None
          /\ (ch_error (fst (fetch_chapter queued w)) = Some "Failed to fetch content"
              \/ ch_error (fst (fetch_chapter queued w))
                 = Some "No chapter URL available"))).
Proof.
  split; [apply fetch_chapter_frame|].
  unfold fetch_chapter, bind, get_current_timestamp. simpl.
  destruct (truthy (ch_url queued)); [|right; simpl; auto].
  set (w0 := mk_world _ _ _ _ _ _).
  destruct (get_chapter_content_with_retry (default "" (ch_url queued)) 3 2 w0)
    as [[text|] w1] eqn:Hrun.
  - unfold get_chapter_content_with_retry in Hrun.
    destruct (retry_attempts_frame _ _ _ _ _ _ _ Hrun) as (_ & _ & _ & _ & _ & Hsome).
    destruct (Hsome text eq_refl) as (Hlen%content_ok_length & _).
    assert (truthy (Some text) = true) as ->.
    { apply truthy_nonempty. intros ->. rewrite py_strip_empty in Hlen. simpl in Hlen. lia. }
    left. exists text. by repeat split.
  - right. simpl. auto.
Qed.

(** X5.  A stub without url (null or empty) costs no request: it is marked
    "No chapter URL available" with a null content, and only the clock is
    read. *)
Theorem fetch_chapter_without_url queued w :
  truthy (ch_url queued) = false ->
  fst (fetch_chapter queued w)
  = set_error (Some "No chapter URL available")
      (set_content None (set_scraped_at (Some (w_clock w (w_ticks w))) queued))
  /\ w_requests (snd (fetch_chapter queued w)) = w_requests w
  /\ w_trace (snd (fetch_chapter queued w)) = w_trace w.
Proof.
  intros Hurl. unfold fetch_chapter, bind, get_current_timestamp. simpl.
  rewrite Hurl. by repeat split.
Qed.

Lemma fetch_chapter_without_url_witness :
  ch_error (fst (fetch_chapter (linkless (Some "c1") (Some "1") None)
                   (fresh_world failing_site)))
  = Some "No chapter URL available"
  /\ w_trace (snd (fetch_chapter (linkless (Some "c1") (Some "1") None)
                     (fresh_world failing_site))) = [].
Proof.
  destruct (fetch_chapter_without_url (linkless (Some "c1") (Some "1") None)
              (fresh_world failing_site) eq_refl) as (Hc & _ & Htr).
  split; [by rewrite Hc|exact Htr].
Defined.

(** One turn of the loop of [process_chapters]. *)
Lemma process_chapters_cons novel_slug existing_data total queued rest i pc acc w :
  process_chapters novel_slug existing_data total (queued :: rest) i pc acc w
  = let chap := fst (fetch_chapter queued w) in
    let w1 := snd (fetch_chapter queued w) in
    let w2 := if checkpoint_due total (pc + 1)
              then snd (save_partial_novel_data novel_slug existing_data
                          (acc ++ [chap]) (pc + 1) i w1)
              else w1 in
    let w3 := if i <? total then snd (sleep 1 w2) else w2 in
    process_chapters novel_slug existing_data total rest (i + 1) (pc + 1)
      (acc ++ [chap]) w3.
Proof.
  cbn [process_chapters]. unfold bind at 1, checkpoint_due.
  destruct (fetch_chapter queued w) as [chap w1]. cbn [fst snd].
  unfold bind at 1.
  destruct (((pc + 1) mod 10 =? 0) || (pc + 1 =? total)).
  - destruct (save_partial_novel_data _ _ _ _ _ w1) as [[] w2]. cbn [snd].
    unfold bind at 1. destruct (i <? total); reflexivity.
  - unfold ret at 1. unfold bind at 1. destruct (i <? total); reflexivity.
Qed.

(** X6.  The processing loop returns one record per queued stub, in the
    order of the queue, each with the fields read from the listing
    unchanged. *)
Theorem process_chapters_keeps_queue novel_slug existing_data total todo i pc acc w :
  map listing_fields
    (fst (process_chapters novel_slug existing_data total todo i pc acc w))
  = map listing_fields (acc ++ todo).
Proof.
  revert i pc acc w. induction todo as [|queued rest IH]; intros i pc acc w.
  - simpl. by rewrite app_nil_r.
  - rewrite process_chapters_cons. cbn zeta. rewrite IH.
    rewrite !map_app. simpl.
    destruct (fetch_chapter_frame queued w) as [-> _].
    by rewrite <- app_assoc.
Qed.

Lemma save_partial_novel_data_effect novel_slug existing_data new_chapters pc i w :
  let merged := merge_chapters
                  (match existing_data with Some d => ds_chapters d | None => [] end)
                  new_chapters in
  exists data,
    ds_chapters data = merged
    /\ ds_metadata data
       = PartialSave (w_clock w (w_ticks w)) (length merged) novel_slug
           (pretty i +:+ " chapters processed")
    /\ w_files (snd (save_partial_novel_data novel_slug existing_data new_chapters pc i w))
       = <[novel_filename novel_slug := data]> (w_files w)
    /\ w_trace (snd (save_partial_novel_data novel_slug existing_data new_chapters pc i w))
       = w_trace w ++ [EvWrite (novel_filename novel_slug) data].
Proof.
  intros merged.
  exists (mk_dataset
            (PartialSave (w_clock w (w_ticks w)) (length merged) novel_slug
               (pretty i +:+ " chapters processed"))
            (match existing_data with
             | Some d => ds_novel_info d
             | None => {[ "slug" := novel_slug ]}
             end) merged).
  repeat split.
Qed.

Lemma process_chapters_last_checkpoint novel_slug existing_data total todo :
  forall i pc acc w,
    todo <> [] -> pc + length todo = total ->
    exists data scraped_at progress,
      w_files (snd (process_chapters novel_slug existing_data total todo i pc acc w))
        !! novel_filename novel_slug = Some data
      /\ ds_chapters data
         = merge_chapters
             (match existing_data with Some d => ds_chapters d | None => [] end)
             (fst (process_chapters novel_slug existing_data total todo i pc acc w))
      /\ ds_metadata data
         = PartialSave scraped_at (length (ds_chapters data)) novel_slug progress.
Proof.
  induction todo as [|queued rest IH]; intros i pc acc w Hne Hlen; [done|].
  rewrite process_chapters_cons. cbn zeta.
  destruct rest as [|next rest].
  - simpl in Hlen.
    assert (checkpoint_due total (pc + 1) = true) as ->.
    { unfold checkpoint_due. apply orb_true_iff. right. apply Nat.eqb_eq. lia. }
    destruct (save_partial_novel_data_effect novel_slug existing_data
                (acc ++ [fst (fetch_chapter queued w)]) (pc + 1) i
                (snd (fetch_chapter queued w)))
      as (data & Hch & Hmeta & Hfiles & _).
    eexists data, _, _. cbn [process_chapters ret fst snd].
    split; [|split; [exact Hch|by rewrite Hmeta, Hch]].
    destruct (i <? total); cbn [sleep emit snd w_files]; rewrite Hfiles;
      apply lookup_insert_eq.
  - apply IH; [done|]. simpl in *. lia.
Qed.

(** X7.  When the queue is not empty, the processing loop ends on a
    checkpoint: the file then holds, marked as a partial save, the merge
    of the chapters that were on disk with all the chapters processed. *)
Theorem last_checkpoint_holds_all novel_slug existing_data todo w :
  todo <> [] ->
  exists data scraped_at progress,
    w_files (snd (process_chapters novel_slug existing_data (length todo) todo 1 0 [] w))
      !! novel_filename novel_slug = Some data
    /\ ds_chapters data
       = merge_chapters
           (match existing_data with Some d => ds_chapters d | None => [] end)
           (fst (process_chapters novel_slug existing_data (length todo) todo 1 0 [] w))
    /\ ds_metadata data
       = PartialSave scraped_at (length (ds_chapters data)) novel_slug progress.
Proof.
  intros Hne. by apply process_chapters_last_checkpoint.
Qed.

Lemma last_checkpoint_holds_all_witness :
  exists data scraped_at progress,
    w_files (snd (process_chapters "n" None 1 [sample (Some "c1") (Some "1") None] 1 0 []
                    (fresh_world failing_site_then_ok)))
      !! novel_filename "n" = Some data
    /\ ds_chapters data
       = merge_chapters []
           (fst (process_chapters "n" None 1 [sample (Some "c1") (Some "1") None] 1 0 []
                   (fresh_world failing_site_then_ok)))
    /\ ds_metadata data = PartialSave scraped_at (length (ds_chapters data)) "n" progress.
Proof.
  apply (last_checkpoint_holds_all "n" None [sample (Some "c1") (Some "1") None]
           (fresh_world failing_site_then_ok)).
  discriminate.
Defined.

Lemma multiples_of_ten m :
  length (List.filter (fun k => k mod 10 =? 0) (seq 1 m)) = m / 10.
Proof.
  induction m as [|m IH]; [reflexivity|].
  rewrite seq_S, List.filter_app, length_app, IH. cbn [List.filter].
  pose proof (Nat.div_mod_eq m 10). pose proof (Nat.div_mod_eq (S m) 10).
  pose proof (Nat.mod_upper_bound m 10 ltac:(lia)).
  pose proof (Nat.mod_upper_bound (S m) 10 ltac:(lia)).
  change (1 + m) with (S m).
  destruct (Nat.eqb_spec (S m mod 10) 0); cbn [length]; lia.
Qed.

(** The chapters of [1..n] that are followed by a checkpoint: one in ten,
    and the last. *)
Lemma checkpoints_due_count n :
  length (List.filter (checkpoint_due n) (seq 1 n)) = (n + 9) / 10.
Proof.
  destruct n as [|m]; [reflexivity|].
  rewrite seq_S, List.filter_app, length_app. cbn [List.filter].
  change (1 + m) with (S m).
  assert (checkpoint_due (S m) (S m) = true) as ->.
  { unfold checkpoint_due. rewrite Nat.eqb_refl. apply orb_true_r. }
  assert (List.filter (checkpoint_due (S m)) (seq 1 m)
          = List.filter (fun k => k mod 10 =? 0) (seq 1 m)) as ->.
  { apply filter_ext_in. intros k [_ Hk]%in_seq. unfold checkpoint_due.
    assert ((k =? S m) = false) as -> by (apply Nat.eqb_neq; lia).
    apply orb_false_r. }
  rewrite multiples_of_ten. cbn [length].
  replace (S m + 9) with (m + 1 * 10) by lia. rewrite Nat.div_add by lia. lia.
Qed.

Lemma process_chapters_writes novel_slug existing_data total todo :
  forall i pc acc w, exists tr,
    w_trace (snd (process_chapters novel_slug existing_data total todo i pc acc w))
    = w_trace w ++ tr
    /\ length (List.filter is_write tr)
       = length (List.filter (checkpoint_due total) (seq (pc + 1) (length todo))).
Proof.
  induction todo as [|queued rest IH]; intros i pc acc w.
  - exists []. simpl. by rewrite app_nil_r.
  - rewrite process_chapters_cons. cbn zeta.
    destruct (fetch_chapter_frame queued w) as (_ & _ & tr1 & Htr1 & Hnw1).
    set (chap := fst (fetch_chapter queued w)) in *.
    set (w1 := snd (fetch_chapter queued w)) in *.
    set (w2 := if checkpoint_due total (pc + 1) then _ else w1).
    assert (Hw2 : exists tr2, w_trace w2 = w_trace w1 ++ tr2
                   /\ length (List.filter is_write tr2)
                      = if checkpoint_due total (pc + 1) then 1 else 0).
    { subst w2. destruct (checkpoint_due total (pc + 1)).
      - eexists [_]. split; reflexivity.
      - exists []. by rewrite app_nil_r. }
    destruct Hw2 as (tr2 & Htr2 & Hn2).
    set (w3 := if i <? total then _ else w2).
    assert (Hw3 : exists tr3, w_trace w3 = w_trace w2 ++ tr3
                   /\ List.filter is_write tr3 = []).
    { subst w3. destruct (i <? total).
      - exists [EvSleep 1]. by split.
      - exists []. by rewrite app_nil_r. }
    destruct Hw3 as (tr3 & Htr3 & Hn3).
    destruct (IH (i + 1) (pc + 1) (acc ++ [chap]) w3) as (tr & Htr & Hn).
    exists (tr1 ++ tr2 ++ tr3 ++ tr). split.
    + rewrite Htr, Htr3, Htr2, Htr1, <- !app_assoc. reflexivity.
    + rewrite !List.filter_app, !length_app, Hnw1, Hn3, Hn2, Hn. simpl.
      replace (S (pc + 1)) with (pc + 1 + 1) by lia.
      destruct (checkpoint_due total (pc + 1)); reflexivity.
Qed.

(** X8.  Processing a queue of [n] stubs writes the file [(n + 9) / 10]
    times: once every ten chapters, and once after the last chapter when
    their number is not a multiple of ten. *)
Theorem checkpoint_count novel_slug existing_data todo w :
  exists tr,
    w_trace (snd (process_chapters novel_slug existing_data (length todo) todo 1 0 [] w))
    = w_trace w ++ tr
    /\ length (List.filter is_write tr) = (length todo + 9) / 10.
Proof.
  destruct (process_chapters_writes novel_slug existing_data (length todo) todo 1 0 [] w)
    as (tr & Htr & Hn).
  exists tr. split; [exact Htr|]. rewrite Hn. apply checkpoints_due_count.
Qed.

End Processing.

(** ** Chapter Collector: pagination *)

Section Pagination.

Implicit Types (w : world) (E : list chapter).

(** X9.  The collector requests the listing pages one by one up to the
    first page at which it stops - a request that raises, a page without
    stub, or a page without next link - and queues, in page order, the
    stubs of these pages that [is_chapter_exists] does not find. *)
Theorem collect_chapter_urls_result base_url novel_slug E k :
  forall fuel page acc w,
    k < fuel ->
    (forall j, j < k -> last_page (w_http w (w_requests w + j)) = false) ->
    last_page (w_http w (w_requests w + k)) = true ->
    exists w' tr,
      collect_chapter_urls fuel base_url novel_slug E page acc w
      = (Some (acc ++ new_stubs E
                 (concat (map (fun j => cards_of (w_http w (w_requests w + j)))
                            (seq 0 (S k))))), w')
      /\ w_requests w' = w_requests w + k + 1
      /\ w_trace w' = w_trace w ++ tr
      /\ List.filter is_get tr
         = map (fun j => EvGet (chapters_url base_url novel_slug (page + j))) (seq 0 (S k)).
Proof.
  induction k as [|k IH]; intros fuel page acc w Hfuel Hbefore Hlast.
  - destruct fuel as [|fuel]; [lia|].
    rewrite Nat.add_0_r in Hlast. cbn [seq map concat]. rewrite !Nat.add_0_r, app_nil_r.
    cbn [collect_chapter_urls]. unfold bind, http_get, ret.
    unfold last_page in Hlast. unfold cards_of, new_stubs.
    assert (Hone : forall q : list chapter, exists w' tr,
              (Some q, emit (EvGet (chapters_url base_url novel_slug page))
                         (mk_world (w_http w) (S (w_requests w)) (w_clock w)
                            (w_ticks w) (w_files w) (w_trace w)))
              = (Some q, w')
              /\ w_requests w' = w_requests w + 1
              /\ w_trace w' = w_trace w ++ tr
              /\ List.filter is_get tr = [EvGet (chapters_url base_url novel_slug page)]).
    { intros q. eexists _, [_]. split; [reflexivity|]. split; [simpl; lia|].
      split; reflexivity. }
    destruct (w_http w (w_requests w)) as [|soup].
    + cbn [List.filter]. rewrite app_nil_r. apply Hone.
    + destruct (doc_chapter_cards soup) as [|c0 cards] eqn:Hcards.
      * cbn [List.filter]. rewrite app_nil_r. apply Hone.
      * apply negb_true_iff in Hlast. rewrite Hlast.
        rewrite queue_new_filter. apply Hone.
  - destruct fuel as [|fuel]; [lia|].
    pose proof (Hbefore 0 ltac:(lia)) as H0. rewrite Nat.add_0_r in H0.
    cbn [collect_chapter_urls]. unfold bind, http_get.
    unfold last_page in H0.
    destruct (w_http w (w_requests w)) as [|soup] eqn:Hget; [discriminate|].
    destruct (doc_chapter_cards soup) as [|c0 cards] eqn:Hcards; [discriminate|].
    apply negb_false_iff in H0. rewrite H0. unfold sleep.
    set (w1 := emit (EvSleep 1) _).
    destruct (IH fuel (page + 1) (queue_new E acc (c0 :: cards)) w1)
      as (w' & tr & Hrun & Hreq & Htr & Hgets).
    { lia. }
    { intros j Hj. simpl. rewrite <- Nat.add_succ_r. apply Hbefore. lia. }
    { simpl. rewrite <- Nat.add_succ_r. exact Hlast. }
    exists w', (EvGet (chapters_url base_url novel_slug page) :: EvSleep 1 :: tr).
    split; [|split; [|split]].
    + rewrite Hrun. f_equal. f_equal.
      rewrite queue_new_filter, <- app_assoc. f_equal.
      rewrite <- (cons_seq (S k) 0), <- seq_shift.
      cbn [map concat]. rewrite List.map_map. unfold new_stubs. rewrite List.filter_app.
      rewrite Nat.add_0_r, Hget. cbn [cards_of]. rewrite Hcards. f_equal.
      f_equal. f_equal. apply map_ext. intros j. simpl.
      by rewrite <- Nat.add_succ_r.
    + rewrite Hreq. simpl. lia.
    + rewrite Htr. simpl. rewrite <- !app_assoc. reflexivity.
    + cbn [List.filter is_get]. rewrite Hgets.
      rewrite <- (cons_seq (S k) 0). cbn [map]. rewrite Nat.add_0_r. f_equal.
      rewrite <- seq_shift, List.map_map. apply map_ext. intros j.
      f_equal. f_equal. lia.
Qed.

Lemma collect_chapter_urls_result_witness :
  fst (collect_chapter_urls 5 "https://lightnovelpub.org" "n"
         [fetched (Some "c2") (Some "2") None "Once upon a time."] 1 []
         (fresh_world two_page_site))
  = Some [sample (Some "c1") (Some "1") None; sample (Some "c3") (Some "3") None].
Proof.
  destruct (collect_chapter_urls_result "https://lightnovelpub.org" "n"
              [fetched (Some "c2") (Some "2") None "Once upon a time."] 1 5 1 []
              (fresh_world two_page_site))
    as (w' & tr & Hrun & _).
  - lia.
  - intros [|j] Hj; [reflexivity|lia].
  - reflexivity.
  - rewrite Hrun. reflexivity.
Defined.

Lemma string_app_nil_r (s : string) : s +:+ "" = s.
Proof.
  induction s as [|c s IH]; [reflexivity|].
  change (String c (s +:+ "") = String c s). by rewrite IH.
Qed.

(** X10.  Two listing pages of a novel never share a url: page 1 has no
    query, and page [n] has the query [?page=n]. *)
Theorem chapters_url_injective base_url novel_slug p q :
  1 <= p -> 1 <= q ->
  chapters_url base_url novel_slug p = chapters_url base_url novel_slug q ->
  p = q.
Proof.
  intros Hp Hq. unfold chapters_url.
  set (url := base_url +:+ "/novel/" +:+ novel_slug +:+ "/chapters/").
  destruct (1 <? p) eqn:Hp1; destruct (1 <? q) eqn:Hq1.
  - intros H. apply String.app_inj in H. apply (String.app_inj "?page=") in H.
    by apply (inj pretty) in H.
  - intros H. rewrite <- (string_app_nil_r url) in H at 2.
    apply String.app_inj in H. discriminate H.
  - intros H. rewrite <- (string_app_nil_r url) in H at 1.
    apply String.app_inj in H. discriminate H.
  - apply Nat.ltb_ge in Hp1, Hq1. lia.
Qed.

Lemma chapters_url_injective_witness : 2 = 2.
Proof.
  apply (chapters_url_injective "https://lightnovelpub.org" "n" 2 2); [lia|lia|reflexivity].
Defined.

End Pagination.

(** ** Sort pass: what callers can rely on *)

Section SortMore.

Import PyFloat.

(** X11.  On a list in which every number is a string, whatever the
    strings, [sort_chapters] returns, and what it returns is a
    permutation of the list: no record is lost and none is added. *)
Theorem sort_chapters_total chapters :
  Forall (fun c => ch_number c <> None) chapters ->
  exists r, sort_chapters chapters = Ok r /\ r ≡ₚ chapters.
Proof.
  intros Hnum. destruct (sort_chapters_returns chapters Hnum) as [r Hr].
  exists r. split; [exact Hr|]. by apply sort_chapters_perm.
Qed.

Lemma sort_chapters_total_witness :
  exists r,
    sort_chapters [sample None (Some "Chapter 12") None; sample None (Some "") None;
                   sample None (Some "3.5") None] = Ok r
    /\ r ≡ₚ [sample None (Some "Chapter 12") None; sample None (Some "") None;
             sample None (Some "3.5") None].
Proof.
  apply sort_chapters_total. repeat constructor; discriminate.
Defined.

(** X12.  When no key is nan, the result of [sort_chapters] is sorted by
    key, and the records whose keys tie are in the order they had in the
    input. *)
Theorem sort_chapters_sorted_stable chapters r :
  sort_chapters chapters = Ok r ->
  Forall (fun c => isnan (key_of c) = false) chapters ->
  sorted_by_number r
  /\ forall k, isnan k = false ->
       List.filter (fun c => ties k (key_of c)) r
       = List.filter (fun c => ties k (key_of c)) chapters.
Proof.
  intros Hsort Hnan. by destruct (sort_chapters_ordered _ _ Hsort Hnan) as (_ & ? & ?).
Qed.

Lemma sort_chapters_sorted_stable_witness :
  sorted_by_number
    (map (fun n => sample None (Some n) None) ["1"; "ch 2"; "2.0"; "10"; "xyz"]).
Proof.
  apply (sort_chapters_sorted_stable
           (map (fun n => sample None (Some n) None) ["10"; "ch 2"; "xyz"; "2.0"; "1"])).
  - vm_compute. reflexivity.
  - repeat constructor.
Defined.

Lemma stable_sort_sorted_id (l : list (spec_float * chapter)) :
  StronglySorted (fun p q => lt q.1 p.1 = false) l -> stable_sort l = l.
Proof.
  induction 1 as [|x l Hl IH Hx]; [reflexivity|].
  simpl. rewrite IH. destruct l as [|y l']; [reflexivity|].
  apply Forall_cons in Hx as [Hy _]. simpl. by rewrite Hy.
Qed.

(** X13.  Sorting is idempotent: when no key is nan, sorting the result
    of [sort_chapters] again returns it unchanged. *)
Theorem sort_chapters_idempotent chapters r :
  sort_chapters chapters = Ok r ->
  Forall (fun c => isnan (key_of c) = false) chapters ->
  sort_chapters r = Ok r.
Proof.
  unfold sort_chapters. destruct (keyed chapters) as [ks|e] eqn:Hks; [|discriminate].
  intros [= <-] Hnan. destruct (keyed_pairs _ _ Hks) as [Hmap Hkeys].
  assert (Hnan' : Forall (fun y => isnan y.1 = false) ks).
  { apply Forall_forall. intros p Hp.
    pose proof (proj1 (Forall_forall _ _) Hkeys p Hp) as Hkp.
    assert (key_of p.2 = p.1) as <- by (unfold key_of; by rewrite Hkp).
    apply (proj1 (Forall_forall _ _) Hnan).
    rewrite <- Hmap. apply list_elem_of_fmap. by exists p. }
  rewrite keyed_map_snd by (by rewrite stable_sort_perm).
  rewrite stable_sort_sorted_id; [reflexivity|]. by apply stable_sort_sorted.
Qed.

Lemma sort_chapters_idempotent_witness :
  sort_chapters (map (fun n => sample None (Some n) None) ["1"; "ch 2"; "2.0"; "10"; "xyz"])
  = Ok (map (fun n => sample None (Some n) None) ["1"; "ch 2"; "2.0"; "10"; "xyz"]).
Proof.
  apply (sort_chapters_idempotent
           (map (fun n => sample None (Some n) None) ["10"; "ch 2"; "xyz"; "2.0"; "1"])).
  - vm_compute. reflexivity.
  - repeat constructor.
Defined.

Lemma no_digit_scan s : no_digit s = true -> scan_numbers Outside s = [].
Proof.
  induction s as [|c s IH]; [reflexivity|].
  simpl. intros [Hc Hs]%andb_true_iff. apply negb_true_iff in Hc. rewrite Hc. auto.
Qed.

Lemma no_digit_drop_underscores s :
  forall prev s1, no_digit s = true -> drop_underscores prev s = Some s1 ->
                  no_digit s1 = true.
Proof.
  induction s as [|c s IH]; intros prev s1 Hs Hdrop; simpl in *.
  - case_bool_decide; [discriminate|]. by injection Hdrop as <-.
  - apply andb_true_iff in Hs as [Hc Hs].
    case_bool_decide.
    + destruct (is_digit prev); [|discriminate]. by apply (IH c).
    + destruct (bool_decide (prev = "_"%char) && negb (is_digit c)); [discriminate|].
      destruct (drop_underscores c s) as [s2|] eqn:Hs2; [|discriminate].
      injection Hdrop as <-. simpl. rewrite Hc. by apply (IH c).
Qed.

Lemma no_digit_lstrip isspace s : no_digit s = true -> no_digit (lstrip isspace s) = true.
Proof.
  induction s as [|c s IH]; [done|]. intros Hs. simpl.
  destruct (isspace c); [|exact Hs].
  simpl in Hs. apply andb_true_iff in Hs as [_ Hs]. auto.
Qed.

Lemma no_digit_rstrip isspace s : no_digit s = true -> no_digit (rstrip isspace s) = true.
Proof.
  induction s as [|c s IH]; [done|]. simpl. intros [Hc Hs]%andb_true_iff.
  specialize (IH Hs). destruct (rstrip isspace s) as [|c' r].
  - destruct (isspace c); [reflexivity|]. simpl. by rewrite Hc.
  - simpl in *. by rewrite Hc, IH.
Qed.

Lemma no_digit_span s : no_digit s = true -> span_digits s = (EmptyString, s).
Proof.
  destruct s as [|c s]; [reflexivity|]. simpl.
  intros [Hc _]%andb_true_iff. apply negb_true_iff in Hc. by rewrite Hc.
Qed.

Lemma no_digit_parse_decimal neg s : no_digit s = true -> parse_decimal neg s = None.
Proof.
  intros Hs. unfold parse_decimal. rewrite no_digit_span by assumption.
  unfold split_fraction. destruct s as [|c t]; [reflexivity|].
  case_bool_decide; [|reflexivity].
  simpl in Hs. apply andb_true_iff in Hs as [_ Ht].
  by rewrite no_digit_span.
Qed.

Lemma no_digit_of_string s x :
  no_digit s = true -> of_string s = Some x -> not_finite x = true.
Proof.
  intros Hs. unfold of_string.
  destruct (drop_underscores "000"%char s) as [s1|] eqn:Hs1; [|discriminate].
  simpl. pose proof (no_digit_drop_underscores _ _ _ Hs Hs1) as Hd1.
  assert (Hd2 : no_digit (float_strip s1) = true).
  { unfold float_strip, strip. by apply no_digit_rstrip, no_digit_lstrip. }
  assert (Hd3 : no_digit (split_sign (float_strip s1)).2 = true).
  { unfold split_sign. destruct (float_strip s1) as [|c t]; [reflexivity|].
    simpl in Hd2. apply andb_true_iff in Hd2 as [Hc Ht].
    repeat case_bool_decide; simpl; try assumption. by rewrite Hc. }
  destruct (split_sign (float_strip s1)) as [neg body]. simpl in Hd3.
  destruct (bool_decide (lower_string body = "inf") || bool_decide (lower_string body = "infinity")).
  - by intros [= <-].
  - case_bool_decide; [by intros [= <-]|].
    by rewrite no_digit_parse_decimal.
Qed.

(** X14.  A number without any digit never gets a finite key: its key
    is plus infinity, which sorts it after every numbered chapter,
    unless the number spells an infinity or nan for [float]. *)
Theorem digitless_number_key c s :
  ch_number c = Some s ->
  no_digit s = true ->
  (of_string s = None -> chapter_key c = Ok inf)
  /\ exists k, chapter_key c = Ok k /\ not_finite k = true.
Proof.
  intros Hnum Hs. unfold chapter_key. rewrite Hnum. unfold py_float, re_findall_numbers.
  rewrite no_digit_scan by assumption.
  destruct (of_string s) as [x|] eqn:Hx.
  - split; [discriminate|]. exists x. split; [reflexivity|].
    by apply (no_digit_of_string s).
  - split; [reflexivity|]. by exists inf.
Qed.

Lemma digitless_number_key_witness :
  chapter_key (sample None (Some "Prologue") None) = Ok inf.
Proof.
  apply (digitless_number_key (sample None (Some "Prologue") None) "Prologue");
    reflexivity.
Defined.

End SortMore.

(** ** Merge Engine: edge cases and the two identity rules *)

Section MergeMore.

Implicit Types (E N : list chapter) (c e : chapter).

(** X15.  With nothing on disk, nothing is known: the merge is the
    incoming list as it is, duplicates included. *)
Theorem merge_chapters_nothing_existing N : merge_chapters [] N = N.
Proof.
  rewrite merge_chapters_filter. simpl.
  induction N as [|c N IH]; [reflexivity|].
  simpl. assert (known (existing_ids []) (existing_numbers []) c = false) as ->.
  { apply not_true_is_false. intros Hk%known_true.
    destruct Hk as [(_ & e & He & _)|(_ & e & He & _)]; by apply elem_of_nil in He. }
  simpl. by rewrite IH.
Qed.

(** X16.  The two identity rules agree on fully keyed stubs in one
    direction: a stub with a non-empty id and a non-empty number that
    [is_chapter_exists] reports as known is dropped by [merge_chapters],
    wherever it stands in the incoming list. *)
Theorem known_stub_not_merged E N1 N2 c :
  is_chapter_exists E c = true ->
  truthy (ch_id c) = true ->
  truthy (ch_number c) = true ->
  merge_chapters E (N1 ++ c :: N2) = merge_chapters E (N1 ++ N2).
Proof.
  intros Hex Hid Hnum. rewrite !merge_chapters_filter, !List.filter_app. simpl.
  assert (known (existing_ids E) (existing_numbers E) c = true) as ->; [|reflexivity].
  apply known_true. apply is_chapter_exists_true, Exists_exists in Hex.
  destruct Hex as (e & He & [Heq|[Heq _]]); [left|right];
    (split; [assumption|]); by exists e.
Qed.

Lemma known_stub_not_merged_witness :
  merge_chapters [sample (Some "c1") (Some "1") (Some "One")]
    ([sample (Some "c2") (Some "2") None]
     ++ fetched (Some "c9") (Some "1") (Some "One") "A long enough text." :: [])
  = merge_chapters [sample (Some "c1") (Some "1") (Some "One")]
      ([sample (Some "c2") (Some "2") None] ++ []).
Proof.
  apply (known_stub_not_merged [sample (Some "c1") (Some "1") (Some "One")]
           [sample (Some "c2") (Some "2") None] []); reflexivity.
Defined.

(** The converse fails: the merge also drops a stub that shares only its
    number with an existing record, which the collector queues and
    fetches. *)
Example queued_stub_dropped_by_merge :
  is_chapter_exists [sample (Some "c1") (Some "1") (Some "One")]
    (sample (Some "c9") (Some "1") (Some "Another one")) = false
  /\ merge_chapters [sample (Some "c1") (Some "1") (Some "One")]
       [fetched (Some "c9") (Some "1") (Some "Another one") "A long enough text."]
     = [sample (Some "c1") (Some "1") (Some "One")].
Proof. split; reflexivity. Qed.

End MergeMore.

(** ** One novel of the second pass *)

Section SecondPass.

Implicit Types (w : world).

Lemma no_write_no_complete tr :
  List.filter is_write tr = [] -> List.filter is_complete_write tr = [].
Proof.
  induction tr as [|e tr IH]; [reflexivity|].
  destruct e; simpl; auto. discriminate.
Qed.

Lemma collect_chapter_urls_no_write fuel base_url novel_slug E :
  forall page acc w, exists tr,
    w_trace (snd (collect_chapter_urls fuel base_url novel_slug E page acc w))
    = w_trace w ++ tr
    /\ List.filter is_write tr = []
    /\ w_files (snd (collect_chapter_urls fuel base_url novel_slug E page acc w))
       = w_files w.
Proof.
  induction fuel as [|fuel IH]; intros page acc w.
  - exists []. simpl. by rewrite app_nil_r.
  - cbn [collect_chapter_urls]. unfold bind, http_get, ret.
    destruct (w_http w (w_requests w)) as [|soup]; [by eexists [_]|].
    destruct (doc_chapter_cards soup) as [|c0 cards]; [by eexists [_]|].
    destruct (doc_has_next soup); [|by eexists [_]].
    unfold sleep. set (w1 := emit (EvSleep 1) _).
    destruct (IH (page + 1) (queue_new E acc (c0 :: cards)) w1) as (tr & Htr & Hnw & Hf).
    exists (EvGet (chapters_url base_url novel_slug page) :: EvSleep 1 :: tr).
    cbn [fst snd]. rewrite Htr, Hf. simpl. rewrite <- !app_assoc. by repeat split.
Qed.

Lemma process_chapters_only_partial novel_slug existing_data total todo :
  forall i pc acc w, exists tr,
    w_trace (snd (process_chapters novel_slug existing_data total todo i pc acc w))
    = w_trace w ++ tr
    /\ List.filter is_complete_write tr = [].
Proof.
  induction todo as [|queued rest IH]; intros i pc acc w.
  - exists []. simpl. by rewrite app_nil_r.
  - rewrite process_chapters_cons. cbn zeta.
    destruct (fetch_chapter_frame queued w) as (_ & _ & tr1 & Htr1 & Hnw1%no_write_no_complete).
    set (chap := fst (fetch_chapter queued w)) in *.
    set (w1 := snd (fetch_chapter queued w)) in *.
    set (w2 := if checkpoint_due total (pc + 1) then _ else w1).
    assert (Hw2 : exists tr2, w_trace w2 = w_trace w1 ++ tr2
                   /\ List.filter is_complete_write tr2 = []).
    { subst w2. destruct (checkpoint_due total (pc + 1)).
      - eexists [_]. split; reflexivity.
      - exists []. by rewrite app_nil_r. }
    destruct Hw2 as (tr2 & Htr2 & Hn2).
    set (w3 := if i <? total then _ else w2).
    assert (Hw3 : exists tr3, w_trace w3 = w_trace w2 ++ tr3
                   /\ List.filter is_complete_write tr3 = []).
    { subst w3. destruct (i <? total).
      - exists [EvSleep 1]. by split.
      - exists []. by rewrite app_nil_r. }
    destruct Hw3 as (tr3 & Htr3 & Hn3).
    destruct (IH (i + 1) (pc + 1) (acc ++ [chap]) w3) as (tr & Htr & Hn).
    exists (tr1 ++ tr2 ++ tr3 ++ tr). split.
    + rewrite Htr, Htr3, Htr2, Htr1, <- !app_assoc. reflexivity.
    + by rewrite !List.filter_app, Hnw1, Hn3, Hn2, Hn.
Qed.

Lemma chapter_key_raises c e : chapter_key c = Raise e -> e = TypeError.
Proof.
  destruct (ch_number c) as [s|] eqn:Hs.
  - destruct (chapter_key_number c s Hs) as [x ->]. discriminate.
  - rewrite chapter_key_null by assumption. by intros [= <-].
Qed.

Lemma sort_chapters_raises l e : sort_chapters l = Raise e -> e = TypeError.
Proof.
  unfold sort_chapters.
  assert (Hk : forall e, keyed l = Raise e -> e = TypeError).
  { induction l as [|c l IH]; intros e'; simpl; [discriminate|].
    destruct (chapter_key c) as [k|e0] eqn:Hc.
    - destruct (keyed l) as [ks|e1]; [discriminate|]. intros [= <-]. by apply IH.
    - intros [= <-]. by apply (chapter_key_raises c). }
  destruct (keyed l) as [ks|e0]; [discriminate|]. intros [= <-]. by apply Hk.
Qed.

(** X17.  A crawl never drops a stored chapter: when the second pass
    completes for a novel, every chapter record that was in its file is
    in the list returned, unchanged, and that list is what the file now
    holds. *)
Theorem stored_chapters_kept fuel base_url novel_data slug stored w chapters w' :
  novel_data !! "slug" = Some slug ->
  w_files w !! novel_filename slug = Some stored ->
  second_pass_step fuel base_url novel_data w = (Some (Ok chapters), w') ->
  (forall e, e ∈ ds_chapters stored -> e ∈ chapters)
  /\ exists meta,
       w_files w' !! novel_filename slug = Some (mk_dataset meta novel_data chapters).
Proof.
  intros Hslug Hstored. unfold second_pass_step. rewrite Hslug.
  destruct (novel_data !! "title") as [title|] eqn:Htitle; [|discriminate].
  unfold bind, load_existing_novel, read_json. rewrite Hstored.
  destruct (get_all_chapters_for_novel fuel base_url slug (Some stored) w)
    as [[[chs|e]|] w1] eqn:Hall; [|discriminate..].
  unfold save_complete_novel_to_json. rewrite Hslug, Htitle.
  unfold bind, get_current_timestamp, write_json, ret. simpl.
  intros [= <- <-]. split.
  - unfold get_all_chapters_for_novel, bind in Hall.
    destruct (collect_chapter_urls _ _ _ _ _ _ w) as [[queued|] w2]; [|discriminate].
    destruct (process_chapters _ _ _ _ _ _ _ w2) as [news w3].
    injection Hall as Hsort _.
    intros e He. rewrite (sort_chapters_perm _ _ Hsort), merge_chapters_filter.
    apply elem_of_app. by left.
  - eexists. simpl. apply lookup_insert_eq.
Qed.

Lemma stored_chapters_kept_witness :
  Forall
    (fun e =>
       e ∈ [fetched (Some "c1") (Some "1") (Some "One") "Once upon a time, in a land far away.";
            set_content_scraped_at (Some "2024-01-01T00:00:00")
              (set_scraped_at (Some "2024-01-01T00:00:00")
                 (fetched (Some "c2") (Some "2") (Some "Two")
                    "Once upon a time, in a land far away."))])
    (ds_chapters stored_novel).
Proof.
  apply Forall_forall.
  refine (proj1 (stored_chapters_kept 2 "https://lightnovelpub.org" sample_novel "n"
                   stored_novel (resumed_world latest_first_site) _
                   (snd (second_pass_step 2 "https://lightnovelpub.org" sample_novel
                           (resumed_world latest_first_site))) _ _ _)).
  - vm_compute. reflexivity.
  - vm_compute. reflexivity.
  - vm_compute. reflexivity.
Defined.

(** X18.  When the second pass raises for a novel that has a slug and a
    title, the exception is the [TypeError] of the sort pass, and the run
    has written no complete save for it: whatever it wrote are
    checkpoints. *)
Theorem sort_failure_leaves_checkpoints fuel base_url novel_data slug title w e w' :
  novel_data !! "slug" = Some slug ->
  novel_data !! "title" = Some title ->
  second_pass_step fuel base_url novel_data w = (Some (Raise e), w') ->
  e = TypeError
  /\ exists tr, w_trace w' = w_trace w ++ tr /\ List.filter is_complete_write tr = [].
Proof.
  intros Hslug Htitle. unfold second_pass_step. rewrite Hslug, Htitle.
  unfold bind, load_existing_novel, read_json.
  destruct (get_all_chapters_for_novel fuel base_url slug
              (w_files w !! novel_filename slug) w) as [[[chs|e0]|] w1] eqn:Hall;
    [|intros [= <- <-]|discriminate].
  - unfold save_complete_novel_to_json. rewrite Hslug, Htitle.
    unfold bind, get_current_timestamp, write_json, ret. simpl. discriminate.
  - unfold get_all_chapters_for_novel, bind in Hall.
    set (existing := match w_files w !! novel_filename slug with
                     | Some d => ds_chapters d | None => [] end) in *.
    destruct (collect_chapter_urls_no_write fuel base_url slug existing 1 [] w)
      as (tr1 & Htr1 & Hnw1%no_write_no_complete & _).
    destruct (collect_chapter_urls _ _ _ _ _ _ w) as [[queued|] w2]; [|discriminate].
    destruct (process_chapters_only_partial slug (w_files w !! novel_filename slug)
                (length queued) queued 1 0 [] w2) as (tr2 & Htr2 & Hn2).
    destruct (process_chapters _ _ _ _ _ _ _ w2) as [news w3].
    injection Hall as Hsort <-. split; [by apply (sort_chapters_raises _ _ Hsort)|].
    exists (tr1 ++ tr2). simpl in *.
    rewrite Htr2, Htr1, <- app_assoc, List.filter_app, Hnw1, Hn2. by split.
Qed.

Lemma sort_failure_leaves_checkpoints_witness :
  List.filter is_complete_write
    (w_trace (snd (second_pass_step 2 "https://lightnovelpub.org" sample_novel
                     (fresh_world prologue_site)))) = [].
Proof.
  destruct (sort_failure_leaves_checkpoints 2 "https://lightnovelpub.org" sample_novel
              "n" "A Novel" (fresh_world prologue_site) TypeError
              (snd (second_pass_step 2 "https://lightnovelpub.org" sample_novel
                      (fresh_world prologue_site))))
    as (_ & tr & Htr & Hnone).
  - vm_compute. reflexivity.
  - vm_compute. reflexivity.
  - vm_compute. reflexivity.
  - rewrite Htr. exact Hnone.
Defined.

End SecondPass.

(** ** Novels index: [update_novel_in_list] *)

Section Index.

Implicit Types (l : list (gmap string (option string))) (u n : gmap string (option string))
  (s : option string).

Lemma replace_first_None s u l :
  replace_first s u l = None <-> s ∉ slugs l.
Proof.
  induction l as [|n l IH]; simpl.
  - split; [intros _; apply not_elem_of_nil|done].
  - rewrite not_elem_of_cons. case_bool_decide as Hn.
    + split; [discriminate|]. intros [Hne _]. by destruct Hne.
    + destruct (replace_first s u l); simpl.
      * split; [discriminate|]. intros [_ Hl]. by apply IH in Hl.
      * split; [|done]. intros _. split; [congruence|]. by apply IH.
Qed.

Lemma replace_first_Some s u l l' :
  replace_first s u l = Some l' ->
  py_get u "slug" = s ->
  slugs l' = slugs l /\ length l' = length l
  /\ replace_first s u l' = Some l'
  /\ find_by_slug s l' = Some u
  /\ forall s', s' <> s -> find_by_slug s' l' = find_by_slug s' l.
Proof.
  intros Hrep Hu. revert l' Hrep. induction l as [|n l IH]; intros l' Hrep; simpl in Hrep.
  - discriminate.
  - case_bool_decide as Hn.
    + injection Hrep as <-. unfold slugs, find_by_slug. simpl.
      rewrite Hn, Hu. rewrite !bool_decide_eq_true_2 by reflexivity.
      repeat split. intros s' Hs'.
      rewrite !bool_decide_eq_false_2 by congruence. reflexivity.
    + destruct (replace_first s u l) as [l''|] eqn:Hl; [|discriminate].
      injection Hrep as <-. destruct (IH l'' eq_refl) as (Hs & Hlen & Hidem & Hfind & Hother).
      unfold slugs, find_by_slug in *. simpl.
      rewrite (bool_decide_eq_false_2 _ Hn), Hs, Hlen, Hidem, Hfind.
      repeat split. intros s' Hs'. by rewrite Hother.
Qed.

Lemma find_by_slug_None s l : s ∉ slugs l -> find_by_slug s l = None.
Proof.
  induction l as [|n l IH]; [reflexivity|].
  unfold slugs, find_by_slug in *. simpl. rewrite not_elem_of_cons. intros [Hn Hl].
  rewrite bool_decide_eq_false_2 by congruence. auto.
Qed.

Lemma find_by_slug_app s l l2 :
  find_by_slug s (l ++ l2)
  = match find_by_slug s l with Some n => Some n | None => find_by_slug s l2 end.
Proof.
  unfold find_by_slug. induction l as [|n l IH]; [reflexivity|].
  simpl. by destruct (bool_decide (py_get n "slug" = s)).
Qed.

Lemma replace_first_app_last s u l :
  s ∉ slugs l -> py_get u "slug" = s ->
  replace_first s u (l ++ [u]) = Some (l ++ [u]).
Proof.
  intros Hl Hu. induction l as [|n l IH]; simpl.
  - by rewrite bool_decide_eq_true_2.
  - unfold slugs in Hl. simpl in Hl. apply not_elem_of_cons in Hl as [Hn Hl].
    rewrite bool_decide_eq_false_2 by congruence. by rewrite IH.
Qed.

(** X19.  After [update_novel_in_list], looking the index up by the slug
    of the updated novel finds that novel, and looking it up by any other
    slug finds what it found before. *)
Theorem update_novel_then_find l u :
  find_by_slug (py_get u "slug") (fst (update_novel_in_list l u)) = Some u
  /\ forall s', s' <> py_get u "slug" ->
       find_by_slug s' (fst (update_novel_in_list l u)) = find_by_slug s' l.
Proof.
  unfold update_novel_in_list. cbn [fst].
  destruct (replace_first (py_get u "slug") u l) as [l'|] eqn:Hrep.
  - destruct (replace_first_Some _ _ _ _ Hrep eq_refl) as (_ & _ & _ & Hfind & Hother).
    by split.
  - apply replace_first_None in Hrep. split.
    + rewrite find_by_slug_app, find_by_slug_None by assumption.
      unfold find_by_slug. simpl. by rewrite bool_decide_eq_true_2.
    + intros s' Hs'. rewrite find_by_slug_app.
      destruct (find_by_slug s' l); [reflexivity|].
      unfold find_by_slug. simpl. by rewrite bool_decide_eq_false_2 by congruence.
Qed.

Lemma update_novel_then_find_witness :
  find_by_slug (Some "b")
    (fst (update_novel_in_list [sample_entry "a" "A"; sample_entry "b" "B"]
            (sample_entry "a" "A, revised")))
  = find_by_slug (Some "b") [sample_entry "a" "A"; sample_entry "b" "B"].
Proof.
  apply (proj2 (update_novel_then_find [sample_entry "a" "A"; sample_entry "b" "B"]
                  (sample_entry "a" "A, revised"))).
  vm_compute. discriminate.
Defined.

(** X20.  [update_novel_in_list] keeps the slugs of the index apart: when
    no two records of the index share a slug, none do after the call.
    The index keeps its length when the slug was in it, and grows by one
    record, put last, when it was not. *)
Theorem update_novel_keeps_slugs_unique l u :
  NoDup (slugs l) ->
  NoDup (slugs (fst (update_novel_in_list l u)))
  /\ length (fst (update_novel_in_list l u))
     = if bool_decide (py_get u "slug" ∈ slugs l) then length l else S (length l).
Proof.
  intros Hnd. unfold update_novel_in_list. cbn [fst].
  destruct (replace_first (py_get u "slug") u l) as [l'|] eqn:Hrep.
  - destruct (replace_first_Some _ _ _ _ Hrep eq_refl) as (Hs & Hlen & _).
    rewrite Hs, Hlen. split; [assumption|].
    rewrite bool_decide_eq_true_2; [reflexivity|].
    destruct (decide (py_get u "slug" ∈ slugs l)) as [|Hnot]; [assumption|].
    apply (proj2 (replace_first_None _ u _)) in Hnot. congruence.
  - apply replace_first_None in Hrep.
    rewrite bool_decide_eq_false_2 by assumption. split.
    + unfold slugs. rewrite map_app. apply NoDup_app. split; [assumption|].
      split; [|apply NoDup_singleton].
      intros s Hs [->|[]%elem_of_nil]%elem_of_cons. by apply Hrep.
    + rewrite length_app. simpl. lia.
Qed.

Lemma update_novel_keeps_slugs_unique_witness :
  NoDup (slugs (fst (update_novel_in_list [sample_entry "a" "A"; sample_entry "b" "B"]
                       (sample_entry "c" "C")))).
Proof.
  apply (update_novel_keeps_slugs_unique [sample_entry "a" "A"; sample_entry "b" "B"]
           (sample_entry "c" "C")).
  unfold slugs. compute_done.
Defined.

(** X21.  [update_novel_in_list] is idempotent: a second call with the
    same novel leaves the index as the first call left it. *)
Theorem update_novel_idempotent l u :
  fst (update_novel_in_list (fst (update_novel_in_list l u)) u)
  = fst (update_novel_in_list l u).
Proof.
  unfold update_novel_in_list. cbn [fst].
  destruct (replace_first (py_get u "slug") u l) as [l'|] eqn:Hrep.
  - destruct (replace_first_Some _ _ _ _ Hrep eq_refl) as (_ & _ & -> & _). reflexivity.
  - apply replace_first_None in Hrep. by rewrite replace_first_app_last.
Qed.

(** The list is changed even when the call raises: a novel without
    title is put in the index before the [KeyError]. *)
Example update_novel_without_title :
  update_novel_in_list [sample_entry "a" "A"] {[ "slug" := Some "b" ]}
  = ([sample_entry "a" "A"; {[ "slug" := Some "b" ]}], Raise KeyError).
Proof. reflexivity. Qed.

(** A title that is [None] is a title: the call returns. *)
Example update_novel_with_null_title :
  snd (update_novel_in_list [] {[ "slug" := Some "b"; "title" := None ]}) = Ok tt.
Proof. reflexivity. Qed.

End Index.

(** ** Slugs *)

Section Slugs.

Ltac ascii_cases c :=
  destruct c as [[|] [|] [|] [|] [|] [|] [|] [|]]; vm_compute;
  first [reflexivity | discriminate | (intros; congruence)].

Lemma py_lower_idem c : lowered (py_lower c) = true.
Proof. ascii_cases c. Qed.

Lemma word_not_sep c : re_word c = true -> is_hyphen c || py_isspace c = false.
Proof. ascii_cases c. Qed.

Lemma word_not_space c : re_word c = true -> py_isspace c = false.
Proof. ascii_cases c. Qed.

Lemma hyphen_eq c : is_hyphen c = true -> c = "-"%char.
Proof. unfold is_hyphen. by intros ?%bool_decide_eq_true. Qed.

Lemma string_forall_lstrip P f s :
  string_forall P s = true -> string_forall P (lstrip f s) = true.
Proof.
  induction s as [|c s IH]; [done|]. intros Hs. simpl.
  destruct (f c); [|exact Hs].
  simpl in Hs. apply andb_true_iff in Hs as [_ Hs]. auto.
Qed.

Lemma string_forall_rstrip P f s :
  string_forall P s = true -> string_forall P (rstrip f s) = true.
Proof.
  induction s as [|c s IH]; [done|]. simpl. intros [Hc Hs]%andb_true_iff.
  specialize (IH Hs). destruct (rstrip f s) as [|c' r].
  - destruct (f c); [reflexivity|]. simpl. by rewrite Hc.
  - simpl in *. by rewrite Hc, IH.
Qed.

Lemma strip_no_space f s :
  string_forall (fun c => negb (f c)) s = true -> strip f s = s.
Proof.
  intros Hs. unfold strip.
  assert (lstrip f s = s) as ->.
  { destruct s as [|c s]; [reflexivity|]. simpl in *.
    apply andb_true_iff in Hs as [Hc%negb_true_iff _]. by rewrite Hc. }
  induction s as [|c s IH]; [reflexivity|]. simpl in *.
  apply andb_true_iff in Hs as [Hc%negb_true_iff Hs]. rewrite IH by assumption.
  destruct s; [|reflexivity]. by rewrite Hc.
Qed.

Lemma lowered_lower_string s : string_forall lowered (py_lower_string s) = true.
Proof. induction s as [|c s IH]; [reflexivity|]. simpl. by rewrite py_lower_idem, IH. Qed.

Lemma remove_punctuation_kept s :
  string_forall lowered s = true ->
  string_forall (fun c => lowered c && kept c) (remove_punctuation s) = true.
Proof.
  induction s as [|c s IH]; [reflexivity|]. simpl. intros [Hc Hs]%andb_true_iff.
  fold (kept c). destruct (kept c) eqn:Hk; [|auto].
  simpl. rewrite Hc, Hk. simpl. auto.
Qed.

Lemma collapse_runs_shape s :
  forall in_run,
    string_forall (fun c => lowered c && kept c) s = true ->
    slug_shape in_run (collapse_runs in_run s) = true.
Proof.
  induction s as [|c s IH]; intros in_run Hs; [reflexivity|].
  simpl in Hs. apply andb_true_iff in Hs as [[Hlow Hkept]%andb_true_iff Hs].
  simpl. destruct (is_hyphen c || py_isspace c) eqn:Hsep.
  - destruct in_run; [by apply IH|]. simpl. by apply IH.
  - apply orb_false_iff in Hsep as [Hh Hsp]. simpl. rewrite Hh.
    unfold kept in Hkept. rewrite Hsp, Hh, !orb_false_r in Hkept.
    rewrite Hkept. unfold lowered in Hlow. rewrite Hlow. simpl. by apply IH.
Qed.

Lemma slugify_shape_lemma text : slug_shape false (slugify text) = true.
Proof.
  unfold slugify. apply collapse_runs_shape, remove_punctuation_kept.
  unfold py_strip, strip.
  apply string_forall_rstrip, string_forall_lstrip, lowered_lower_string.
Qed.

Lemma slug_shape_facts s :
  forall b, slug_shape b s = true ->
    string_forall lowered s = true
    /\ string_forall (fun c => negb (py_isspace c)) s = true
    /\ remove_punctuation s = s
    /\ collapse_runs b s = s.
Proof.
  induction s as [|c s IH]; intros b Hs; [done|].
  simpl in Hs. destruct (is_hyphen c) eqn:Hh.
  - apply andb_true_iff in Hs as [Hb%negb_true_iff Hs]. subst b.
    destruct (IH true Hs) as (Hl & Hsp & Hrem & Hcol).
    pose proof (hyphen_eq c Hh) as ->. simpl. rewrite Hl, Hsp, Hrem, Hcol. done.
  - apply andb_true_iff in Hs as [[Hw Hlow]%andb_true_iff Hs].
    destruct (IH false Hs) as (Hl & Hsp & Hrem & Hcol).
    pose proof (word_not_space c Hw) as Hns.
    simpl. unfold lowered at 1. rewrite Hlow, Hl, Hns, Hsp, Hw, Hh, Hrem, Hcol. done.
Qed.

(** X22.  A slug is made of word characters in lower case and hyphens,
    with no two hyphens in a row: [slugify] leaves no white space and no
    punctuation. *)
Theorem slugify_shape text :
  slug_shape false (slugify text) = true
  /\ string_forall (fun c => negb (py_isspace c)) (slugify text) = true.
Proof.
  pose proof (slugify_shape_lemma text) as Hshape. split; [exact Hshape|].
  by destruct (slug_shape_facts _ _ Hshape) as (_ & ? & _).
Qed.

Lemma py_lower_string_lowered s :
  string_forall lowered s = true -> py_lower_string s = s.
Proof.
  induction s as [|c s IH]; [reflexivity|]. simpl. intros [Hc Hs]%andb_true_iff.
  unfold lowered in Hc. apply bool_decide_eq_true in Hc. by rewrite Hc, IH.
Qed.

(** X23.  [slugify] is idempotent: the slug of a slug is that slug. *)
Theorem slugify_idempotent text : slugify (slugify text) = slugify text.
Proof.
  pose proof (slugify_shape_lemma text) as Hshape.
  destruct (slug_shape_facts _ _ Hshape) as (Hl & Hsp & Hrem & Hcol).
  unfold slugify at 1.
  rewrite (py_lower_string_lowered _ Hl). unfold py_strip.
  rewrite (strip_no_space _ _ Hsp), Hrem, Hcol. reflexivity.
Qed.

End Slugs.

(** ** The slug of a link *)

Section PathSlug.

Lemma split_slash_nonempty s : split_slash s <> [].
Proof.
  destruct s as [|c s]; [done|]. simpl.
  destruct (is_slash c); [done|]. by destruct (split_slash s).
Qed.

Lemma split_slash_app x y :
  split_slash (x +:+ String "/"%char y) = split_slash x ++ split_slash y.
Proof.
  induction x as [|c x IH]; [reflexivity|].
  change (String c x +:+ String "/"%char y) with (String c (x +:+ String "/"%char y)).
  simpl. rewrite IH. destruct (is_slash c); [reflexivity|].
  pose proof (split_slash_nonempty x). by destruct (split_slash x).
Qed.

Lemma split_slash_plain s : has_slash s = false -> split_slash s = [s].
Proof.
  induction s as [|c s IH]; [done|]. simpl. intros [Hc Hs]%orb_false_iff.
  by rewrite Hc, IH.
Qed.

Lemma split_slash_pieces s : Forall (fun piece => has_slash piece = false) (split_slash s).
Proof.
  induction s as [|c s IH]; simpl; [by repeat constructor|].
  destruct (is_slash c) eqn:Hc; [by constructor|].
  destruct (split_slash s) as [|piece pieces].
  - repeat constructor. simpl. by rewrite Hc.
  - inversion IH as [|? ? Hp Hps]; subst. constructor; [|done]. simpl. by rewrite Hc, Hp.
Qed.

Lemma rstrip_all f s : string_forall f s = true -> rstrip f s = EmptyString.
Proof.
  induction s as [|c s IH]; [done|]. simpl. intros [Hc Hs]%andb_true_iff.
  by rewrite IH, Hc.
Qed.

Lemma rstrip_app_all f x trail :
  string_forall f trail = true -> rstrip f (x +:+ trail) = rstrip f x.
Proof.
  intros Ht. induction x as [|c x IH]; [by apply rstrip_all|].
  change (String c x +:+ trail) with (String c (x +:+ trail)). simpl. by rewrite IH.
Qed.

Lemma rstrip_app_keep f x y :
  rstrip f y <> EmptyString -> rstrip f (x +:+ y) = x +:+ rstrip f y.
Proof.
  intros Hy. induction x as [|c x IH]; [reflexivity|].
  change (String c x +:+ y) with (String c (x +:+ y)).
  change (String c x +:+ rstrip f y) with (String c (x +:+ rstrip f y)).
  simpl. rewrite IH. destruct x; [|reflexivity].
  change (EmptyString +:+ rstrip f y) with (rstrip f y). by destruct (rstrip f y).
Qed.

Lemma rstrip_plain_slash s : has_slash s = false -> rstrip is_slash s = s.
Proof.
  induction s as [|c s IH]; [done|]. simpl. intros [Hc Hs]%orb_false_iff.
  rewrite IH by done. rewrite Hc. by destruct s.
Qed.

Lemma lstrip_all f s : string_forall f s = true -> lstrip f s = EmptyString.
Proof.
  induction s as [|c s IH]; [done|]. simpl. intros [Hc Hs]%andb_true_iff.
  rewrite Hc. auto.
Qed.

Lemma lstrip_app f x y :
  lstrip f (x +:+ y) =
    if string_forall f x then lstrip f y else lstrip f x +:+ y.
Proof.
  induction x as [|c x IH]; [reflexivity|].
  change (String c x +:+ y) with (String c (x +:+ y)). simpl.
  destruct (f c); [exact IH|reflexivity].
Qed.

(** X24.  The slug read from a link never contains a slash, whatever the
    link is. *)
Theorem slug_of_path_no_slash novel_path : has_slash (slug_of_path novel_path) = false.
Proof.
  unfold slug_of_path.
  set (pieces := split_slash _).
  pose proof (split_slash_pieces (strip is_slash novel_path))
    as Hall.
  fold pieces in Hall. clearbody pieces.
  induction Hall as [|piece rest Hp Hrest IH]; [reflexivity|].
  destruct rest; [exact Hp|exact IH].
Qed.

(** X25.  Round trip: a link that ends in a slash, a non-empty segment
    free of slashes, and any number of closing slashes, gives that
    segment as the slug. *)
Theorem slug_of_path_last_segment (leading segment trail : string) :
  has_slash segment = false ->
  segment <> EmptyString ->
  string_forall is_slash trail = true ->
  slug_of_path (leading +:+ String "/"%char (segment +:+ trail)) = segment.
Proof.
  intros Hseg Hne Htrail. unfold slug_of_path, strip.
  assert (rstrip is_slash segment <> EmptyString) as Hkeep
    by (by rewrite rstrip_plain_slash).
  assert (lstrip is_slash segment = segment) as Hlseg.
  { destruct segment as [|c s]; [done|]. simpl in *.
    apply orb_false_iff in Hseg as [Hc _]. by rewrite Hc. }
  rewrite lstrip_app. destruct (string_forall is_slash leading) eqn:Hlead.
  - change (lstrip is_slash (String "/"%char (segment +:+ trail)))
      with (lstrip is_slash (segment +:+ trail)).
    rewrite lstrip_app. destruct (string_forall is_slash segment) eqn:Hall.
    { destruct segment as [|c s]; [done|]. simpl in Hseg, Hall.
      apply orb_false_iff in Hseg as [Hc _].
      apply andb_true_iff in Hall as [Hc' _]. congruence. }
    rewrite Hlseg, rstrip_app_all, rstrip_plain_slash by done.
    by rewrite split_slash_plain.
  - set (rest := lstrip is_slash leading).
    rewrite <- (rstrip_app_all is_slash segment trail Htrail) in Hkeep.
    assert (rstrip is_slash (String "/"%char (segment +:+ trail)) =
            String "/"%char segment) as Hr.
    { simpl. rewrite rstrip_app_all, rstrip_plain_slash by done. by destruct segment. }
    rewrite rstrip_app_keep by (rewrite Hr; done).
    rewrite Hr, split_slash_app, (split_slash_plain segment Hseg).
    apply last_last.
Qed.

Lemma slug_of_path_last_segment_witness :
  slug_of_path ("/novel" +:+ String "/"%char ("my-book" +:+ "/")) = "my-book".
Proof.
  apply (slug_of_path_last_segment "/novel" "my-book" "/"); [reflexivity|discriminate|reflexivity].
Defined.

(** X26.  A link made of slashes only, or an empty one, gives the empty
    slug. *)
Theorem slug_of_path_only_slashes novel_path :
  string_forall is_slash novel_path = true -> slug_of_path novel_path = EmptyString.
Proof.
  intros Hall. unfold slug_of_path, strip.
  by rewrite (lstrip_all _ _ Hall).
Qed.

Lemma slug_of_path_only_slashes_witness : slug_of_path "//" = EmptyString.
Proof. apply (slug_of_path_only_slashes "//"). reflexivity. Defined.

End PathSlug.

(** ** First pass: the index and the queue of novels *)

Section FirstPassProps.

Context (selected : document -> option (gmap string (option string)))
  (save_novels_to_json : list (gmap string (option string)) -> M unit)
  (base_url : string).

Implicit Types (U D novels : list (gmap string (option string)))
  (novel d : gmap string (option string)) (s : option string).


Lemma in_list_slugs s U : in_list s U = true <-> s ∈ slugs U.
Proof.
  unfold in_list, slugs. induction U as [|n U IH]; simpl.
  - split; [discriminate|]. by intros ?%elem_of_nil.
  - rewrite orb_true_iff, IH, elem_of_cons, bool_decide_eq_true.
    split; (intros [H|H]; [left; congruence|by right]).
Qed.

Lemma in_list_not_slugs s U : in_list s U = false <-> s ∉ slugs U.
Proof. rewrite <- in_list_slugs. by destruct (in_list s U). Qed.

Lemma get_novel_detail_slug s w d w' :
  get_novel_detail selected base_url s w = (Some d, w') -> d !! "slug" = Some s.
Proof.
  unfold get_novel_detail, extract_novel_detail, bind, http_get, ret, get_current_timestamp.
  destruct (w_http w (w_requests w)) as [|soup]; [discriminate|].
  destruct (selected soup) as [fields|]; [|discriminate].
  intros [= <- _]. by simplify_map_eq.
Qed.

Lemma novel_data_of_keys novel detail s :
  novel !! "slug" = Some s ->
  (forall d, detail = Some d -> d !! "slug" = Some s) ->
  is_Some (novel !! "title") ->
  py_get (novel_data_of novel detail) "slug" = s
  /\ is_Some (novel_data_of novel detail !! "title").
Proof.
  intros Hs Hd Ht. unfold novel_data_of, py_get.
  destruct detail as [d|]; [|by rewrite Hs].
  case_bool_decide; [by rewrite Hs|].
  specialize (Hd d eq_refl). split.
  - by rewrite (lookup_union_Some_l _ _ _ _ Hd).
  - apply lookup_union_is_Some. by right.
Qed.

Lemma update_novel_appends U d :
  py_get d "slug" ∉ slugs U -> is_Some (d !! "title") ->
  update_novel_in_list U d = (U ++ [d], Ok tt).
Proof.
  intros Hnew [t Ht]. unfold update_novel_in_list.
  by rewrite (proj2 (replace_first_None _ d U) Hnew), Ht.
Qed.

Lemma listed_keys novel :
  listed novel = true <-> is_Some (novel !! "slug") /\ is_Some (novel !! "title").
Proof. unfold listed. by rewrite andb_true_iff, !bool_decide_eq_true. Qed.

(** The invariant of the loop. *)
Lemma first_pass_inv total novels :
  forall i U D w,
    match first_pass selected save_novels_to_json base_url total i novels U D w with
    | (Ok (U', D'), w') =>
        forallb listed novels = true
        /\ exists added,
             U' = U ++ added /\ D' = D ++ added
             /\ NoDup (slugs added)
             /\ (forall s, s ∈ slugs added -> s ∉ slugs U)
             /\ (forall s, s ∈ slugs added -> s ∈ slugs novels)
             /\ (forall (Hsave : forall l v, w_requests (snd (save_novels_to_json l v))
                                            = w_requests v),
                   w_requests w' = w_requests w + length added)
    | (Raise e, _) => e = KeyError /\ forallb listed novels = false
    end.
Proof.
  induction novels as [|novel novels IH]; intros i U D w.
  - simpl. split; [reflexivity|]. exists []. rewrite !app_nil_r.
    repeat split; try (by intros ? ?%elem_of_nil). { constructor. } simpl. lia.
  - cbn [first_pass forallb].
    destruct (novel !! "slug") as [s|] eqn:Hslug; cycle 1.
    { split; [reflexivity|]. unfold listed. by rewrite Hslug. }
    destruct (novel !! "title") as [t|] eqn:Htitle; cycle 1.
    { split; [reflexivity|]. unfold listed. rewrite Htitle.
      by rewrite andb_false_r. }
    assert (listed novel = true) as ->
      by (apply listed_keys; rewrite Hslug, Htitle; eauto).
    assert (py_get novel "slug" = s) as Hget by (unfold py_get; by rewrite Hslug).
    cbn [andb]. destruct (in_list s U) eqn:Hin.
    + specialize (IH (S i) U D w).
      destruct (first_pass selected save_novels_to_json base_url total (S i) novels U D w)
        as [[[U' D']|e] w']; [|exact IH].
      destruct IH as (Hl & added & -> & -> & Hnd & Hfresh & Hsub & Hreq).
      split; [exact Hl|]. exists added. repeat split; try done.
      intros s' Hs'. unfold slugs. cbn [map]. apply elem_of_cons. right. by apply Hsub.
    + apply in_list_not_slugs in Hin. unfold bind at 1.
      destruct (get_novel_detail selected base_url s w) as [detail w1] eqn:Hdet. cbv zeta.
      destruct (novel_data_of_keys novel detail s Hslug) as [Hnds Hndt].
      { intros d ->. by eapply get_novel_detail_slug. }
      { by rewrite Htitle. }
      set (nd := novel_data_of novel detail) in *.
      rewrite update_novel_appends by (by rewrite ?Hnds).
      unfold bind at 1. destruct (save_novels_to_json (U ++ [nd]) w1) as [[] w2] eqn:Hsv.
      unfold bind at 1.
      destruct ((if i <? total then sleep 2 else ret tt) w2) as [[] w3] eqn:Hsl.
      specialize (IH (S i) (U ++ [nd]) (D ++ [nd]) w3).
      destruct (first_pass selected save_novels_to_json base_url total (S i) novels
                  (U ++ [nd]) (D ++ [nd]) w3)
        as [[[U' D']|e] w']; [|exact IH].
      destruct IH as (Hl & added & -> & -> & Hnd & Hfresh & Hsub & Hreq).
      split; [exact Hl|]. exists (nd :: added).
      rewrite <- !app_assoc. cbn [app]. repeat split.
      * unfold slugs in *. cbn [map]. rewrite Hnds. constructor; [|exact Hnd].
        intros Hs. apply (Hfresh _ Hs). rewrite map_app. apply elem_of_app. right.
        cbn [map]. rewrite Hnds. apply elem_of_cons. by left.
      * intros s' Hs'. unfold slugs in Hs'. cbn [map] in Hs'. rewrite Hnds in Hs'.
        apply elem_of_cons in Hs' as [->|Hs']; [exact Hin|].
        intros HU. apply (Hfresh _ Hs'). unfold slugs. rewrite map_app.
        apply elem_of_app. by left.
      * intros s' Hs'. unfold slugs in Hs' |- *. cbn [map] in Hs' |- *.
        rewrite Hnds in Hs'. rewrite Hget.
        apply elem_of_cons in Hs' as [->|Hs']; [by left|]. right. by apply Hsub.
      * intros Hsave. rewrite (Hreq Hsave). cbn [length].
        assert (w_requests w3 = w_requests w2) as ->.
        { destruct (i <? total); by inversion Hsl. }
        pose proof (Hsave (U ++ [nd]) w1) as Hw2. rewrite Hsv in Hw2. cbn [snd] in Hw2.
        rewrite Hw2.
        assert (w_requests w1 = S (w_requests w)) as ->; [|lia].
        revert Hdet. unfold get_novel_detail, bind, http_get, ret, get_current_timestamp.
        destruct (w_http w (w_requests w)) as [|soup]; [by intros [= _ <-]|].
        destruct (extract_novel_detail selected base_url soup s); by intros [= _ <-].
Qed.

(** X27.  In the first pass every call of [update_novel_in_list] appends:
    when each listed novel has a slug and a title, the pass returns, and
    the index it returns is the index it started from followed by the
    novels it queued for the second pass, in order. *)
Theorem first_pass_appends total i novels existing w :
  forallb listed novels = true ->
  exists details w',
    first_pass selected save_novels_to_json base_url total i novels existing [] w
    = (Ok (existing ++ details, details), w').
Proof.
  intros Hl. pose proof (first_pass_inv total novels i existing [] w) as Hinv.
  destruct (first_pass selected save_novels_to_json base_url total i novels existing [] w)
    as [[[U' D']|e] w'].
  - destruct Hinv as (_ & added & -> & -> & _). by exists added, w'.
  - destruct Hinv as [_ Hno]. congruence.
Qed.

(** X28.  The novels queued for the second pass have slugs that differ
    from one another and from every slug of the index the run started
    from, and each is the slug of a listed novel: a novel already in the
    index is never queued.  The pass raises, with [KeyError], only when a
    listed novel lacks its slug or its title. *)
Theorem first_pass_queue_fresh total i novels existing w :
  match fst (first_pass selected save_novels_to_json base_url total i novels existing [] w) with
  | Ok (_, D') =>
      NoDup (slugs D')
      /\ (forall s, s ∈ slugs D' -> s ∉ slugs existing)
      /\ (forall s, s ∈ slugs D' -> s ∈ slugs novels)
  | Raise e => e = KeyError /\ forallb listed novels = false
  end.
Proof.
  pose proof (first_pass_inv total novels i existing [] w) as Hinv.
  destruct (first_pass selected save_novels_to_json base_url total i novels existing [] w)
    as [[[U' D']|e] w']; cbn [fst]; [|exact Hinv].
  destruct Hinv as (_ & added & _ & -> & Hnd & Hfresh & Hsub & _).
  by repeat split.
Qed.

(** X29.  When every listed novel is in the index already, the first pass
    queues nothing and has no effect: no request, no write, no sleep. *)
Theorem first_pass_all_known total novels existing :
  forallb (fun novel => listed novel && in_list (py_get novel "slug") existing) novels
    = true ->
  forall i D w,
    first_pass selected save_novels_to_json base_url total i novels existing D w
    = (Ok (existing, D), w).
Proof.
  induction novels as [|novel novels IH]; intros Hall i D w; [reflexivity|].
  cbn [forallb] in Hall.
  apply andb_true_iff in Hall as [[Hl Hin]%andb_true_iff Hall].
  apply listed_keys in Hl as [[s Hs] [t Ht]].
  cbn [first_pass]. rewrite Hs, Ht.
  unfold py_get in Hin. rewrite Hs in Hin. rewrite Hin. by apply IH.
Qed.

(** X30.  The first pass sends one request for each novel it queues, and
    none for the others, as long as saving the index sends none. *)
Theorem first_pass_requests total i novels existing w :
  (forall l v, w_requests (snd (save_novels_to_json l v)) = w_requests v) ->
  match first_pass selected save_novels_to_json base_url total i novels existing [] w with
  | (Ok (_, D'), w') => w_requests w' = w_requests w + length D'
  | (Raise _, _) => True
  end.
Proof.
  intros Hsave. pose proof (first_pass_inv total novels i existing [] w) as Hinv.
  destruct (first_pass selected save_novels_to_json base_url total i novels existing [] w)
    as [[[U' D']|e] w']; [|exact I].
  destruct Hinv as (_ & added & _ & -> & _ & _ & _ & Hreq).
  by apply Hreq.
Qed.

End FirstPassProps.

Lemma first_pass_appends_witness :
  exists details w',
    first_pass (title_only "A") save_elsewhere "https://lightnovelpub.org" 2 1
      [sample_entry "a" "A"; sample_entry "b" "B"] [sample_entry "b" "B"] []
      (fresh_world detail_site)
    = (Ok ([sample_entry "b" "B"] ++ details, details), w').
Proof.
  apply (first_pass_appends (title_only "A") save_elsewhere "https://lightnovelpub.org"
           2 1 [sample_entry "a" "A"; sample_entry "b" "B"] [sample_entry "b" "B"]
           (fresh_world detail_site)).
  reflexivity.
Defined.

Lemma first_pass_all_known_witness :
  first_pass (title_only "A") save_elsewhere "https://lightnovelpub.org" 1 1
    [sample_entry "a" "A"] [sample_entry "a" "A"] [] (fresh_world detail_site)
  = (Ok ([sample_entry "a" "A"], []), fresh_world detail_site).
Proof.
  apply (first_pass_all_known (title_only "A") save_elsewhere "https://lightnovelpub.org"
           1 [sample_entry "a" "A"] [sample_entry "a" "A"]).
  reflexivity.
Defined.

Lemma first_pass_requests_witness :
  match
    first_pass (title_only "A") save_elsewhere "https://lightnovelpub.org" 3 1
      [sample_entry "a" "A"; sample_entry "b" "B"; sample_entry "c" "C"]
      [sample_entry "b" "B"] [] (fresh_world detail_site)
  with
  | (Ok (_, D'), w') => w_requests w' = w_requests (fresh_world detail_site) + length D'
  | (Raise _, _) => True
  end.
Proof.
  apply (first_pass_requests (title_only "A") save_elsewhere "https://lightnovelpub.org"
           3 1 [sample_entry "a" "A"; sample_entry "b" "B"; sample_entry "c" "C"]
           [sample_entry "b" "B"] (fresh_world detail_site)).
  intros l v. reflexivity.
Defined.
